(** * Tarot card reader: the core model of [src/tarot_core.py]

    A shallow embedding of the three classes of the core module
    ([TarotCard], [TarotDeck], [TarotReading]) and of the two pieces of the
    Python standard library that the core leans on: the [random] module
    ([shuffle], [choice]) and the [json] module ([dump], [load]).

    Conventions.
    - A Python [str] is a [string]: the bytes of its UTF-8 encoding.
    - Python is dynamically typed.  A card attribute holds [None], a boolean
      or a string ([pyatom]): the types of the constructor's annotations,
      stored unchecked.  A reading is built from [None], booleans, strings,
      lists and dictionaries with string keys ([pyval]).  Numbers occur in
      neither.
    - A dictionary that is only looked up is a [gmap]; a dictionary that is
      written out (its key order shows in the JSON text) is the list of its
      items in insertion order.
    - An exception is a value: a function that can raise returns an
      [outcome].  A function without an [outcome] in its type returns on
      every input.
    - The interpreter-wide random generator is threaded through as a state:
      a stream of raw draws, of which [randbelow n] uses the next one
      modulo [n].  Every outcome in range is the outcome under some stream
      ([randbelow_any]), so a statement for all streams is a statement for
      all outcomes of the random choices.
    - A card object sits in one place at a time (in the deck list until it
      is popped; a reading keeps snapshots, not cards), so a deck is the
      list of its cards' values.
    - A file system is a finite map from paths to texts. *)

From Stdlib Require Import ZArith Lia Ascii.
From stdpp Require Import base tactics option list strings pretty gmap.

(** ** Python values *)

(** What a card attribute can hold. *)
Inductive pyatom :=
  | ANone
  | ABool (b : bool)
  | AStr (s : string).

Global Instance pyatom_eq_dec : EqDecision pyatom.
Proof. solve_decision. Defined.

(** What a reading is made of.  The induction principle that goes under
    the list and dictionary constructors is [pyval_ind'] below. *)
Local Unset Elimination Schemes.
Inductive pyval :=
  | PNone
  | PBool (b : bool)
  | PStr (s : string)
  | PList (items : list pyval)
  | PDict (pairs : list (string * pyval)).
Local Set Elimination Schemes.

Definition of_atom (a : pyatom) : pyval :=
  match a with
  | ANone => PNone
  | ABool b => PBool b
  | AStr s => PStr s
  end.

(** [bool(x)] *)
Definition truthy (a : pyatom) : bool :=
  match a with
  | ANone => false
  | ABool b => b
  | AStr s => negb (String.eqb s "")
  end.

(** [str(x)], which is what an f-string field [{x}] expands to. *)
Definition py_str (a : pyatom) : string :=
  match a with
  | ANone => "None"
  | ABool true => "True"
  | ABool false => "False"
  | AStr s => s
  end.

(** The one-character string [chr(10)]. *)
Definition newline : string := String (Ascii.ascii_of_nat 10) "".

(** [sep.join(parts)] *)
Fixpoint join (sep : string) (parts : list string) : string :=
  match parts with
  | [] => ""
  | [p] => p
  | p :: rest => p +:+ sep +:+ join sep rest
  end.

(** The entry of a dictionary, kept as the list of its items in insertion
    order, under [key]. *)
Fixpoint assoc {V : Type} (key : string) (pairs : list (string * V)) : option V :=
  match pairs with
  | [] => None
  | (k, v) :: rest => if String.eqb k key then Some v else assoc key rest
  end.

(** Exceptions that the modelled code can raise. *)
Inductive exn :=
  | KeyError (key : string)
  | IndexError.

Inductive outcome (A : Type) :=
  | Ok (a : A)
  | Raise (e : exn).
Arguments Ok {A} a.
Arguments Raise {A} e.

(** ** The [random] module *)

Module Random.

(** The generator state: the raw draws still to come. *)
Definition state := nat → nat.

Definition M (A : Type) := state → A * state.

Definition ret {A} (a : A) : M A := λ g, (a, g).
Definition bind {A B} (m : M A) (k : A → M B) : M B :=
  λ g, let (a, g') := m g in k a g'.

(** [Random._randbelow(n)]: some [k] with [0 <= k < n].  It is only called
    with [n >= 2] here. *)
Definition randbelow (n : nat) : M nat :=
  λ g, (g 0 `mod` n, λ k, g (S k)).

End Random.

Notation "'draw' x <- m 'in' k" := (Random.bind m (λ x, k))
  (at level 10, x name, m at level 100, k at level 200, only parsing).

Section RandomLists.
Context {A : Type}.

(** [x[i], x[j] = x[j], x[i]] *)
Definition swap (x : list A) (i j : nat) : list A :=
  match x !! i, x !! j with
  | Some xi, Some xj => <[j:=xi]> (<[i:=xj]> x)
  | _, _ => x
  end.

(** The body of [Random.shuffle]:
    [for i in reversed(range(1, len(x))): j = randbelow(i + 1); swap]. *)
Fixpoint shuffle_from (i : nat) (x : list A) : Random.M (list A) :=
  match i with
  | 0 => Random.ret x
  | S i' =>
      draw j <- Random.randbelow (S i) in
      shuffle_from i' (swap x i j)
  end.

Definition random_shuffle (x : list A) : Random.M (list A) :=
  shuffle_from (length x - 1) x.

(** [Random.choice(seq)] is [seq[randbelow(len(seq))]] for a non-empty
    [seq], here [x :: xs]. *)
Definition random_choice (x : A) (xs : list A) : Random.M A :=
  draw i <- Random.randbelow (length (x :: xs)) in
  Random.ret (nth i (x :: xs) x).

End RandomLists.

(** ** [class TarotCard] *)

Record TarotCard := mkCard {
  name : pyatom;
  description : pyatom;
  image_file : pyatom;
  reversed : pyatom
}.

(** [TarotCard(name, description)] with the defaults of [__init__]. *)
Definition new_card (n d : string) : TarotCard :=
  mkCard (AStr n) (AStr d) ANone (ABool false).

(** [self.reversed = not self.reversed] *)
Definition flip (c : TarotCard) : TarotCard :=
  mkCard (name c) (description c) (image_file c)
         (ABool (negb (truthy (reversed c)))).

Definition get_meaning (c : TarotCard) : string :=
  if truthy (reversed c) then
    py_str (name c) +:+ " (Reversed): " +:+ py_str (description c)
      +:+ " - Consider the opposite or blocked energy."
  else
    py_str (name c) +:+ ": " +:+ py_str (description c).

Definition to_dict (c : TarotCard) : pyval :=
  PDict [ ("name", of_atom (name c));
          ("description", of_atom (description c));
          ("image_file", of_atom (image_file c));
          ("reversed", of_atom (reversed c)) ].

(** [data[key]] *)
Definition getitem (data : gmap string pyatom) (key : string) : outcome pyatom :=
  match data !! key with
  | Some v => Ok v
  | None => Raise (KeyError key)
  end.

(** [data.get(key, default)] *)
Definition dict_get (data : gmap string pyatom) (key : string) (dflt : pyatom) : pyatom :=
  match data !! key with
  | Some v => v
  | None => dflt
  end.

(** [from_dict(data)] for a mapping whose values are atoms.  Keyword
    arguments are evaluated left to right, so a missing [name] is reported
    before a missing [description]. *)
Definition from_dict (data : gmap string pyatom) : outcome TarotCard :=
  match getitem data "name" with
  | Raise e => Raise e
  | Ok n =>
      match getitem data "description" with
      | Raise e => Raise e
      | Ok d =>
          Ok (mkCard n d (dict_get data "image_file" ANone)
                         (dict_get data "reversed" (ABool false)))
      end
  end.

(** ** [class TarotDeck] *)

Record TarotDeck := mkDeck { cards : list TarotCard }.

Definition major_arcana : list (string * string) :=
  [ ("The Fool", "New beginnings, spontaneity, innocence");
    ("The Magician", "Manifestation, resourcefulness, power");
    ("The High Priestess", "Intuition, sacred knowledge, divine feminine");
    ("The Empress", "Femininity, beauty, nature, abundance");
    ("The Emperor", "Authority, structure, control, father-figure");
    ("The Hierophant", "Spiritual wisdom, religious beliefs, conformity");
    ("The Lovers", "Love, harmony, relationships, values alignment");
    ("The Chariot", "Control, willpower, success, determination");
    ("Strength", "Inner strength, bravery, compassion, focus");
    ("The Hermit", "Soul searching, introspection, inner guidance");
    ("Wheel of Fortune", "Good luck, karma, life cycles, destiny");
    ("Justice", "Justice, fairness, truth, cause and effect");
    ("The Hanged Man", "Suspension, restriction, letting go");
    ("Death", "Endings, beginnings, change, transformation");
    ("Temperance", "Balance, moderation, patience, purpose");
    ("The Devil", "Shadow self, attachment, addiction, restriction");
    ("The Tower", "Sudden change, upheaval, chaos, revelation");
    ("The Star", "Hope, faith, purpose, renewal, spirituality");
    ("The Moon", "Illusion, fear, anxiety, subconscious, intuition");
    ("The Sun", "Optimism, fun, warmth, success, vitality");
    ("Judgement", "Reflection, reckoning, awakening");
    ("The World", "Completion, integration, accomplishment, travel") ].

Definition suits : list string := ["Cups"; "Wands"; "Swords"; "Pentacles"].

Definition suit_meanings : list (string * string) :=
  [ ("Cups", "emotions, intuition, relationships, spirituality");
    ("Wands", "creativity, action, passion, career");
    ("Swords", "thoughts, communication, conflict, intellect");
    ("Pentacles", "material world, resources, money, career") ].

Definition court_cards : list string := ["Page"; "Knight"; "Queen"; "King"].

(** One pass of [for i in range(1, 11)]. *)
Definition number_card (suit suit_meaning : string) (i : nat) : TarotCard :=
  let name := if Nat.eqb i 1 then "Ace of " +:+ suit
              else pretty i +:+ " of " +:+ suit in
  let description := "Represents " +:+ suit_meaning +:+ " at level " +:+ pretty i in
  new_card name description.

(** One pass of [for court in court_cards]. *)
Definition court_card (suit suit_meaning court : string) : TarotCard :=
  new_card (court +:+ " of " +:+ suit)
           (court +:+ " energy in the realm of " +:+ suit_meaning).

(** One pass of [for suit in suits]: the cards it appends.  Every suit is
    a key of [suit_meanings] ([suit_meanings_total] below), so
    [suit_meanings[suit]] finds its entry. *)
Definition suit_cards (suit : string) : list TarotCard :=
  let suit_meaning := default "" (assoc suit suit_meanings) in
  map (number_card suit suit_meaning) (seq 1 10)
    ++ map (court_card suit suit_meaning) court_cards.

(** [_create_deck] appends to whatever [self.cards] holds. *)
Definition _create_deck (d : TarotDeck) : TarotDeck :=
  let with_major :=
    foldl (λ cs nd, cs ++ [new_card nd.1 nd.2]) (cards d) major_arcana in
  mkDeck (foldl (λ cs suit, cs ++ suit_cards suit) with_major suits).

(** [TarotDeck()] *)
Definition new_deck : TarotDeck := _create_deck (mkDeck []).

(** [random.shuffle(self.cards)], then one coin per card, in list order. *)
Fixpoint flip_some (cs : list TarotCard) : Random.M (list TarotCard) :=
  match cs with
  | [] => Random.ret []
  | c :: rest =>
      draw b <- random_choice true [false] in
      draw rest' <- flip_some rest in
      Random.ret ((if b then flip c else c) :: rest')
  end.

Definition shuffle (d : TarotDeck) : Random.M TarotDeck :=
  draw cs <- random_shuffle (cards d) in
  draw cs' <- flip_some cs in
  Random.ret (mkDeck cs').

(** [self.cards.pop()] when the list is not empty, else [None]. *)
Definition draw_card (d : TarotDeck) : option TarotCard * TarotDeck :=
  match last (cards d) with
  | Some c => (Some c, mkDeck (removelast (cards d)))
  | None => (None, d)
  end.

(** The loop of [draw_cards]; a card object is always true, so [if card:]
    asks whether [draw_card] returned a card. *)
Fixpoint draw_loop (k : nat) (d : TarotDeck) (drawn_cards : list TarotCard)
  : list TarotCard * TarotDeck :=
  match k with
  | 0 => (drawn_cards, d)
  | S k' =>
      let (card, d') := draw_card d in
      draw_loop k' d' (match card with
                       | Some c => drawn_cards ++ [c]
                       | None => drawn_cards
                       end)
  end.

(** [range(min(count, len(self.cards)))] is evaluated once, before the
    loop; a negative bound gives an empty range. *)
Definition draw_cards (count : Z) (d : TarotDeck) : list TarotCard * TarotDeck :=
  draw_loop (Z.to_nat (Z.min count (Z.of_nat (length (cards d))))) d [].

(** [self.cards.clear()] *)
Definition clear (d : TarotDeck) : TarotDeck := mkDeck [].

(** [self.cards.clear(); self._create_deck()] *)
Definition reset (d : TarotDeck) : TarotDeck := _create_deck (clear d).

Definition remaining_cards (d : TarotDeck) : nat := length (cards d).

(** ** [class TarotReading] *)

Record TarotReading := mkReading {
  deck : TarotDeck;
  readings_history : list pyval
}.

(** [TarotReading()] *)
Definition new_reading : TarotReading := mkReading new_deck [].

(** [for i, card in enumerate(cards):
       interpretation.append(f"{positions[i]}: {card.get_meaning()}")],
    entered with [i] as the next index. *)
Fixpoint interpret_from (positions : list string) (i : nat)
    (cs : list TarotCard) (interpretation : list string) : outcome (list string) :=
  match cs with
  | [] => Ok interpretation
  | card :: rest =>
      match positions !! i with
      | None => Raise IndexError
      | Some position =>
          interpret_from positions (S i) rest
            (interpretation ++ [position +:+ ": " +:+ get_meaning card])
      end
  end.

(** What a method leaves behind: its result, or the exception it raised,
    and the session as it then is. *)
Definition call : Type := outcome pyval * TarotReading.

Definition single_card_reading (self : TarotReading) : Random.M call :=
  draw d1 <- shuffle (deck self) in
  let (card, d2) := draw_card d1 in
  match card with
  | None =>
      Random.ret (Ok (PDict [("error", PStr "No cards available")]),
                  mkReading d2 (readings_history self))
  | Some card =>
      let reading :=
        PDict [ ("type", PStr "Single Card");
                ("cards", PList [to_dict card]);
                ("interpretation",
                 PStr ("Today's guidance: " +:+ get_meaning card)) ] in
      Random.ret (Ok reading,
                  mkReading d2 (readings_history self ++ [reading]))
  end.

Definition three_card_reading (self : TarotReading) : Random.M call :=
  draw d1 <- shuffle (deck self) in
  let (cs, d2) := draw_cards 3 d1 in
  if length cs <? 3 then
    Random.ret (Ok (PDict [("error", PStr "Not enough cards available")]),
                mkReading d2 (readings_history self))
  else
    let positions := ["Past"; "Present"; "Future"] in
    match interpret_from positions 0 cs [] with
    | Raise e => Random.ret (Raise e, mkReading d2 (readings_history self))
    | Ok interpretation =>
        let reading :=
          PDict [ ("type", PStr "Three Card (Past, Present, Future)");
                  ("cards", PList (map to_dict cs));
                  ("interpretation", PStr (join newline interpretation)) ] in
        Random.ret (Ok reading,
                    mkReading d2 (readings_history self ++ [reading]))
    end.

Definition celtic_cross_reading (self : TarotReading) : Random.M call :=
  draw d1 <- shuffle (deck self) in
  let (cs, d2) := draw_cards 10 d1 in
  if length cs <? 10 then
    Random.ret
      (Ok (PDict [("error", PStr "Not enough cards for Celtic Cross reading")]),
       mkReading d2 (readings_history self))
  else
    let positions :=
      [ "Present Situation";
        "Challenge/Cross";
        "Distant Past/Foundation";
        "Recent Past";
        "Possible Outcome";
        "Near Future";
        "Your Approach";
        "External Influences";
        "Hopes and Fears";
        "Final Outcome" ] in
    match interpret_from positions 0 cs [] with
    | Raise e => Random.ret (Raise e, mkReading d2 (readings_history self))
    | Ok interpretation =>
        let reading :=
          PDict [ ("type", PStr "Celtic Cross");
                  ("cards", PList (map to_dict cs));
                  ("interpretation", PStr (join newline interpretation)) ] in
        Random.ret (Ok reading,
                    mkReading d2 (readings_history self ++ [reading]))
    end.

Definition get_reading_types : list string :=
  ["Single Card"; "Three Card"; "Celtic Cross"].

(** ** Reading the results *)

(** The two shapes of a result: [{"error": msg}] and
    [{"type": ..., "cards": [card.to_dict() for card in cards],
      "interpretation": ...}]. *)
Definition error_result (msg : string) : pyval := PDict [("error", PStr msg)].

Definition reading_result (type : string) (cs : list TarotCard)
    (interpretation : string) : pyval :=
  PDict [ ("type", PStr type);
          ("cards", PList (map to_dict cs));
          ("interpretation", PStr interpretation) ].

Definition three_card_positions : list string := ["Past"; "Present"; "Future"].

Definition celtic_cross_positions : list string :=
  [ "Present Situation"; "Challenge/Cross"; "Distant Past/Foundation";
    "Recent Past"; "Possible Outcome"; "Near Future"; "Your Approach";
    "External Influences"; "Hopes and Fears"; "Final Outcome" ].

(** [reading[key]] on a dictionary result. *)
Definition py_lookup (key : string) (v : pyval) : option pyval :=
  match v with
  | PDict pairs => assoc key pairs
  | _ => None
  end.

(** ["error" in reading], the test that every front end makes. *)
Definition is_error (v : pyval) : bool :=
  match py_lookup "error" v with
  | Some _ => true
  | None => false
  end.

(** The two spreads are one procedure run with different constants. *)
Definition spread_reading (count : nat) (message type : string)
    (positions : list string) (self : TarotReading) : Random.M call :=
  draw d1 <- shuffle (deck self) in
  let (cs, d2) := draw_cards (Z.of_nat count) d1 in
  if length cs <? count then
    Random.ret (Ok (error_result message), mkReading d2 (readings_history self))
  else
    match interpret_from positions 0 cs [] with
    | Raise e => Random.ret (Raise e, mkReading d2 (readings_history self))
    | Ok interpretation =>
        let reading := reading_result type cs (join newline interpretation) in
        Random.ret (Ok reading,
                    mkReading d2 (readings_history self ++ [reading]))
    end.

(** One line of an interpretation. *)
Definition position_line (position : string) (card : TarotCard) : string :=
  position +:+ ": " +:+ get_meaning card.

(** The 78 names in the order of a new deck: the 22 major entries, then for
    each of Cups, Wands, Swords and Pentacles the ten numbered entries and
    the four court entries. *)
Definition canonical_names : list string :=
  [ "The Fool"; "The Magician"; "The High Priestess"; "The Empress";
    "The Emperor"; "The Hierophant"; "The Lovers"; "The Chariot";
    "Strength"; "The Hermit"; "Wheel of Fortune"; "Justice";
    "The Hanged Man"; "Death"; "Temperance"; "The Devil"; "The Tower";
    "The Star"; "The Moon"; "The Sun"; "Judgement"; "The World";
    "Ace of Cups"; "2 of Cups"; "3 of Cups"; "4 of Cups"; "5 of Cups";
    "6 of Cups"; "7 of Cups"; "8 of Cups"; "9 of Cups"; "10 of Cups";
    "Page of Cups"; "Knight of Cups"; "Queen of Cups"; "King of Cups";
    "Ace of Wands"; "2 of Wands"; "3 of Wands"; "4 of Wands"; "5 of Wands";
    "6 of Wands"; "7 of Wands"; "8 of Wands"; "9 of Wands"; "10 of Wands";
    "Page of Wands"; "Knight of Wands"; "Queen of Wands"; "King of Wands";
    "Ace of Swords"; "2 of Swords"; "3 of Swords"; "4 of Swords";
    "5 of Swords"; "6 of Swords"; "7 of Swords"; "8 of Swords";
    "9 of Swords"; "10 of Swords"; "Page of Swords"; "Knight of Swords";
    "Queen of Swords"; "King of Swords"; "Ace of Pentacles";
    "2 of Pentacles"; "3 of Pentacles"; "4 of Pentacles"; "5 of Pentacles";
    "6 of Pentacles"; "7 of Pentacles"; "8 of Pentacles"; "9 of Pentacles";
    "10 of Pentacles"; "Page of Pentacles"; "Knight of Pentacles";
    "Queen of Pentacles"; "King of Pentacles" ].

(** A generator state to run examples with. *)
Definition demo_rng : Random.state := λ k, 7 * k + 3.


(** ** The [json] module

    [json.dump(obj, fp, indent=2, ensure_ascii=False)] and [json.load(fp)],
    after CPython's [json/encoder.py], [json/decoder.py] and
    [json/scanner.py].  A number is not a value of [pyval]: the decoder
    below stops with a failure where the library would read a number
    literal, [NaN] or [Infinity].  A [\uXXXX] escape takes four hexadecimal
    digits, as in the C scanner.  A code point is written into a string as
    its UTF-8 bytes, a lone surrogate in the same three-byte form. *)

Module Json.

Definition dquote : ascii := "034"%char.
Definition backslash : ascii := "092"%char.

(** *** Encoding *)

(** [format(n, 'x')] for one digit. *)
Definition hex_digit (n : N) : ascii :=
  match n with
  | 0 => "0" | 1 => "1" | 2 => "2" | 3 => "3" | 4 => "4" | 5 => "5"
  | 6 => "6" | 7 => "7" | 8 => "8" | 9 => "9" | 10 => "a" | 11 => "b"
  | 12 => "c" | 13 => "d" | 14 => "e" | _ => "f"
  end%char%N.

(** [ESCAPE_DCT]: what [ESCAPE.sub] puts for a character. *)
Definition escape_char (c : ascii) : string :=
  if Ascii.eqb c dquote then String backslash (String dquote "")
  else if Ascii.eqb c backslash then String backslash (String backslash "")
  else if Ascii.eqb c "010" then String backslash "n"
  else if Ascii.eqb c "013" then String backslash "r"
  else if Ascii.eqb c "009" then String backslash "t"
  else if Ascii.eqb c "008" then String backslash "b"
  else if Ascii.eqb c "012" then String backslash "f"
  else if (Ascii.N_of_ascii c <? 32)%N then
    String backslash
      (String "u" (String "0" (String "0"
        (String (hex_digit (Ascii.N_of_ascii c / 16))
          (String (hex_digit (Ascii.N_of_ascii c mod 16)) "")))))
  else String c "".

Fixpoint escape (s : string) : string :=
  match s with
  | "" => ""
  | String c rest => escape_char c +:+ escape rest
  end.

(** [encode_basestring(s)] *)
Definition encode_basestring (s : string) : string :=
  String dquote (escape s +:+ String dquote "").

Fixpoint spaces (n : nat) : string :=
  match n with
  | 0 => ""
  | S n' => String " " (spaces n')
  end.

(** ['\n' + _indent * _current_indent_level], with [_indent] two spaces. *)
Definition newline_indent (level : nat) : string :=
  newline +:+ spaces (2 * level).

(** [_iterencode(o, level)], all chunks concatenated.  The item separator
    is [','] and the key separator [': '], the defaults when an indent is
    given. *)
Fixpoint iterencode (level : nat) (o : pyval) : string :=
  match o with
  | PNone => "null"
  | PBool true => "true"
  | PBool false => "false"
  | PStr s => encode_basestring s
  | PList [] => "[]"
  | PList lst =>
      "[" +:+ newline_indent (S level)
        +:+ join ("," +:+ newline_indent (S level))
              (map (iterencode (S level)) lst)
        +:+ newline_indent level +:+ "]"
  | PDict [] => "{}"
  | PDict dct =>
      "{" +:+ newline_indent (S level)
        +:+ join ("," +:+ newline_indent (S level))
              (map (λ kv, encode_basestring kv.1 +:+ ": "
                            +:+ iterencode (S level) kv.2) dct)
        +:+ newline_indent level +:+ "}"
  end.

(** The text that [json.dump(obj, fp, indent=2, ensure_ascii=False)]
    writes. *)
Definition dumps (obj : pyval) : string := iterencode 0 obj.

(** *** Decoding *)

(** [WHITESPACE]: space, tab, line feed, carriage return. *)
Definition is_ws (c : ascii) : bool :=
  Ascii.eqb c " " || Ascii.eqb c "009" || Ascii.eqb c "010" || Ascii.eqb c "013".

Fixpoint skip_ws (s : string) : string :=
  match s with
  | "" => ""
  | String c rest => if is_ws c then skip_ws rest else s
  end.

Definition hex_value (c : ascii) : option N :=
  let n := Ascii.N_of_ascii c in
  if (48 <=? n)%N && (n <=? 57)%N then Some (n - 48)%N
  else if (97 <=? n)%N && (n <=? 102)%N then Some (n - 87)%N
  else if (65 <=? n)%N && (n <=? 70)%N then Some (n - 55)%N
  else None.

(** [_decode_uXXXX]: four hexadecimal digits. *)
Definition decode_uXXXX (h1 h2 h3 h4 : ascii) : option N :=
  match hex_value h1, hex_value h2, hex_value h3, hex_value h4 with
  | Some a, Some b, Some c, Some d => Some (((a * 16 + b) * 16 + c) * 16 + d)%N
  | _, _, _, _ => None
  end.

(** [chr(uni)], as the bytes of its UTF-8 form. *)
Definition chr (uni : N) : string :=
  let byte n := Ascii.ascii_of_N n in
  if (uni <? 128)%N then String (byte uni) ""
  else if (uni <? 2048)%N then
    String (byte (192 + uni / 64)%N) (String (byte (128 + uni mod 64)%N) "")
  else if (uni <? 65536)%N then
    String (byte (224 + uni / 4096)%N)
      (String (byte (128 + (uni / 64) mod 64)%N)
        (String (byte (128 + uni mod 64)%N) ""))
  else
    String (byte (240 + uni / 262144)%N)
      (String (byte (128 + (uni / 4096) mod 64)%N)
        (String (byte (128 + (uni / 64) mod 64)%N)
          (String (byte (128 + uni mod 64)%N) ""))).

(** [BACKSLASH]: the one-letter escapes. *)
Definition unescape (esc : ascii) : option ascii :=
  if Ascii.eqb esc dquote then Some dquote
  else if Ascii.eqb esc backslash then Some backslash
  else if Ascii.eqb esc "/" then Some "/"%char
  else if Ascii.eqb esc "b" then Some "008"%char
  else if Ascii.eqb esc "f" then Some "012"%char
  else if Ascii.eqb esc "n" then Some "010"%char
  else if Ascii.eqb esc "r" then Some "013"%char
  else if Ascii.eqb esc "t" then Some "009"%char
  else None.

Definition is_high_surrogate (uni : N) : bool :=
  (55296 <=? uni)%N && (uni <=? 56319)%N.
Definition is_low_surrogate (uni : N) : bool :=
  (56320 <=? uni)%N && (uni <=? 57343)%N.
Definition join_surrogates (uni uni2 : N) : N :=
  (65536 + ((uni - 55296) * 1024 + (uni2 - 56320)))%N.

(** Put [chunk] in front of what the rest of the scan returns. *)
Definition chunk_then (chunk : string) (r : option (string * string))
  : option (string * string) :=
  match r with
  | Some (content, rest) => Some (chunk +:+ content, rest)
  | None => None
  end.

(** [scanstring(s, end, strict=True)], entered after the opening quote:
    the content of the string and the text after its closing quote. *)
Fixpoint scanstring (s : string) : option (string * string) :=
  match s with
  | "" => None
  | String c rest =>
      if Ascii.eqb c dquote then Some ("", rest)
      else if Ascii.eqb c backslash then
        match rest with
        | "" => None
        | String esc rest1 =>
            if Ascii.eqb esc "u" then
              match rest1 with
              | String h1 (String h2 (String h3 (String h4 rest2))) =>
                  match decode_uXXXX h1 h2 h3 h4 with
                  | None => None
                  | Some uni =>
                      if is_high_surrogate uni then
                        match rest2 with
                        | String b (String u (String l1 (String l2
                            (String l3 (String l4 rest3))))) =>
                            if Ascii.eqb b backslash && Ascii.eqb u "u" then
                              match decode_uXXXX l1 l2 l3 l4 with
                              | None => None
                              | Some uni2 =>
                                  if is_low_surrogate uni2 then
                                    chunk_then (chr (join_surrogates uni uni2))
                                      (scanstring rest3)
                                  else chunk_then (chr uni) (scanstring rest2)
                              end
                            else chunk_then (chr uni) (scanstring rest2)
                        | _ => chunk_then (chr uni) (scanstring rest2)
                        end
                      else chunk_then (chr uni) (scanstring rest2)
                  end
              | _ => None
              end
            else
              match unescape esc with
              | None => None
              | Some char => chunk_then (String char "") (scanstring rest1)
              end
        end
      else if (Ascii.N_of_ascii c <? 32)%N then None
      else chunk_then (String c "") (scanstring rest)
  end.

(** [s[idx:idx + len(word)] == word]: the text after [word]. *)
Fixpoint after_word (word s : string) : option string :=
  match word, s with
  | "", _ => Some s
  | String w word', String c s' =>
      if Ascii.eqb w c then after_word word' s' else None
  | String _ _, "" => None
  end.

(** [dct[key] = value] *)
Fixpoint dict_set (key : string) (value : pyval) (dct : list (string * pyval))
  : list (string * pyval) :=
  match dct with
  | [] => [(key, value)]
  | (k, v) :: rest =>
      if String.eqb k key then (k, value) :: rest
      else (k, v) :: dict_set key value rest
  end.

(** [dict(pairs)] *)
Definition dict_of_pairs (pairs : list (string * pyval)) : list (string * pyval) :=
  foldl (λ dct kv, dict_set kv.1 kv.2 dct) [] pairs.

(** [scan_once], [JSONArray] and [JSONObject].  The three call each other;
    [fuel] bounds the depth of the calls.  A value that is read with some
    fuel is read with any fuel that is at least the number of characters it
    takes ([JsonFacts.scan_once_fuel] below), so the fuel that [loads]
    gives, above the length of the text, loses no text.  (The interpreter's
    own recursion limit is not modelled.)

    [array_items] is the loop of [JSONArray], entered at a value;
    [object_items] is the loop of [JSONObject], entered after the opening
    quote of a key. *)
Fixpoint scan_once (fuel : nat) (s : string) {struct fuel}
  : option (pyval * string) :=
  match fuel with
  | 0 => None
  | S fuel' =>
      match s with
      | "" => None
      | String nextchar rest =>
          if Ascii.eqb nextchar dquote then
            match scanstring rest with
            | Some (content, r) => Some (PStr content, r)
            | None => None
            end
          else if Ascii.eqb nextchar "{" then
            match skip_ws rest with
            | "" => None
            | String c r =>
                if Ascii.eqb c "}" then Some (PDict [], r)
                else if Ascii.eqb c dquote then
                  match object_items fuel' r with
                  | Some (pairs, r') => Some (PDict (dict_of_pairs pairs), r')
                  | None => None
                  end
                else None
            end
          else if Ascii.eqb nextchar "[" then
            match skip_ws rest with
            | "" => None
            | String c r =>
                if Ascii.eqb c "]" then Some (PList [], r)
                else
                  match array_items fuel' (String c r) with
                  | Some (values, r') => Some (PList values, r')
                  | None => None
                  end
            end
          else
            match after_word "null" s with
            | Some r => Some (PNone, r)
            | None =>
                match after_word "true" s with
                | Some r => Some (PBool true, r)
                | None =>
                    match after_word "false" s with
                    | Some r => Some (PBool false, r)
                    | None => None
                    end
                end
            end
      end
  end
with array_items (fuel : nat) (s : string) {struct fuel}
  : option (list pyval * string) :=
  match fuel with
  | 0 => None
  | S fuel' =>
      match scan_once fuel' s with
      | None => None
      | Some (value, r) =>
          match skip_ws r with
          | "" => None
          | String c r1 =>
              if Ascii.eqb c "]" then Some ([value], r1)
              else if Ascii.eqb c "," then
                match array_items fuel' (skip_ws r1) with
                | Some (values, r2) => Some (value :: values, r2)
                | None => None
                end
              else None
          end
      end
  end
with object_items (fuel : nat) (s : string) {struct fuel}
  : option (list (string * pyval) * string) :=
  match fuel with
  | 0 => None
  | S fuel' =>
      match scanstring s with
      | None => None
      | Some (key, r) =>
          match skip_ws r with
          | "" => None
          | String c r1 =>
              if Ascii.eqb c ":" then
                match scan_once fuel' (skip_ws r1) with
                | None => None
                | Some (value, r2) =>
                    match skip_ws r2 with
                    | "" => None
                    | String c2 r3 =>
                        if Ascii.eqb c2 "}" then Some ([(key, value)], r3)
                        else if Ascii.eqb c2 "," then
                          match skip_ws r3 with
                          | "" => None
                          | String c3 r4 =>
                              if Ascii.eqb c3 dquote then
                                match object_items fuel' r4 with
                                | Some (pairs, r5) =>
                                    Some ((key, value) :: pairs, r5)
                                | None => None
                                end
                              else None
                          end
                        else None
                    end
                end
              else None
          end
      end
  end.

(** [JSONDecoder.decode]: white space, one value, white space, and the end
    of the text. *)
Definition loads (s : string) : option pyval :=
  match scan_once (S (String.length s)) (skip_ws s) with
  | None => None
  | Some (obj, rest) =>
      match skip_ws rest with
      | "" => Some obj
      | String _ _ => None
      end
  end.

(** *** The decoder as a relation

    [scans s v r]: the text [s] starts with the value [v], and [r] is what
    follows it.  [scans_values] and [scans_pairs] are the same for the items
    of an array, up to and with its closing bracket, and for the entries of
    an object, from after the opening quote of a key up to and with its
    closing brace. *)
Inductive scans : string → pyval → string → Prop :=
  | scans_string rest content r :
      scanstring rest = Some (content, r) →
      scans (String dquote rest) (PStr content) r
  | scans_empty_object rest r :
      skip_ws rest = String "}" r →
      scans (String "{" rest) (PDict []) r
  | scans_object rest r1 pairs r :
      skip_ws rest = String dquote r1 →
      scans_pairs r1 pairs r →
      scans (String "{" rest) (PDict (dict_of_pairs pairs)) r
  | scans_empty_array rest r :
      skip_ws rest = String "]" r →
      scans (String "[" rest) (PList []) r
  | scans_array rest c r1 values r :
      skip_ws rest = String c r1 →
      Ascii.eqb c "]" = false →
      scans_values (String c r1) values r →
      scans (String "[" rest) (PList values) r
  | scans_null r : scans ("null" +:+ r) PNone r
  | scans_true r : scans ("true" +:+ r) (PBool true) r
  | scans_false r : scans ("false" +:+ r) (PBool false) r
with scans_values : string → list pyval → string → Prop :=
  | scans_values_last s value r r1 :
      scans s value r →
      skip_ws r = String "]" r1 →
      scans_values s [value] r1
  | scans_values_more s value r r1 values r2 :
      scans s value r →
      skip_ws r = String "," r1 →
      scans_values (skip_ws r1) values r2 →
      scans_values s (value :: values) r2
with scans_pairs : string → list (string * pyval) → string → Prop :=
  | scans_pairs_last s key r r1 value r2 r3 :
      scanstring s = Some (key, r) →
      skip_ws r = String ":" r1 →
      scans (skip_ws r1) value r2 →
      skip_ws r2 = String "}" r3 →
      scans_pairs s [(key, value)] r3
  | scans_pairs_more s key r r1 value r2 r3 r4 pairs r5 :
      scanstring s = Some (key, r) →
      skip_ws r = String ":" r1 →
      scans (skip_ws r1) value r2 →
      skip_ws r2 = String "," r3 →
      skip_ws r3 = String dquote r4 →
      scans_pairs r4 pairs r5 →
      scans_pairs s ((key, value) :: pairs) r5.

Scheme scans_mut := Minimality for scans Sort Prop
  with scans_values_mut := Minimality for scans_values Sort Prop
  with scans_pairs_mut := Minimality for scans_pairs Sort Prop.
Combined Scheme scans_mutind from scans_mut, scans_values_mut, scans_pairs_mut.

End Json.

(** How deep the decoder's calls go on the text of a value, at most. *)
Fixpoint size (v : pyval) : nat :=
  match v with
  | PList items => S (foldr (λ x n, S (size x) + n) 0 items)
  | PDict pairs => S (foldr (λ kv n, S (size kv.2) + n) 0 pairs)
  | _ => 1
  end.

(** No dictionary in [v] has a key twice, as in every Python [dict]. *)
Fixpoint unique_keys (v : pyval) : bool :=
  match v with
  | PList items => forallb unique_keys items
  | PDict pairs =>
      bool_decide (NoDup (map fst pairs))
        && forallb (λ kv, unique_keys kv.2) pairs
  | _ => true
  end.

(** The text of a dictionary entry. *)
Definition encode_item (level : nat) (kv : string * pyval) : string :=
  Json.encode_basestring kv.1 +:+ ": " +:+ Json.iterencode level kv.2.

(** What the induction carries for a value: its text is read back as the
    value, whatever follows it, by a decoder with enough fuel. *)
Definition reads_back (v : pyval) : Prop :=
  unique_keys v = true →
  ∀ level fuel (rest : string),
    size v ≤ fuel →
    Json.scan_once fuel (Json.iterencode level v +:+ rest) = Some (v, rest).

(** ** Files

    The files that can be read, by path, and the paths that [open] accepts
    for writing.  A text written to a path is what a later read of that path
    returns; text mode only rewrites line ends, which the decoder treats
    alike inside and outside strings. *)
Record FileSystem := mkFS {
  files : gmap string string;
  writable : string → bool
}.

(** [save_reading]: [True] and the file written, or [False] when [open]
    raises.  Every value of [pyval] can be encoded, so [json.dump] itself
    succeeds. *)
Definition save_reading (fs : FileSystem) (filename : string) (reading : pyval)
  : bool * FileSystem :=
  if writable fs filename then
    (true, mkFS (<[filename := Json.dumps reading]> (files fs)) (writable fs))
  else (false, fs).

(** [load_reading]: the decoded text, or [None] when the file cannot be
    opened or its text is not accepted. *)
Definition load_reading (fs : FileSystem) (filename : string) : option pyval :=
  match files fs !! filename with
  | None => None
  | Some text => Json.loads text
  end.

(** ** Sessions and inputs to run the statements on *)

(** A new session after [deck.draw_cards(k)]. *)
Definition predrawn (k : Z) : TarotReading :=
  mkReading (draw_cards k new_deck).2 [].

(** Two cards left, five cards left, none left. *)
Definition two_left : TarotReading := predrawn 76.
Definition five_left : TarotReading := predrawn 73.
Definition none_left : TarotReading := predrawn 78.

(** The rule that ties the history to the result of a reading: the call
    returned a value, and the history grew by exactly that value unless the
    value is an error. *)
Definition history_rule (before : list pyval) (c : call) : Prop :=
  ∃ r, c.1 = Ok r ∧
       readings_history c.2 = if is_error r then before else before ++ [r].

(** A snapshot without the optional keys. *)
Definition star_snapshot : gmap string pyatom :=
  <["name" := AStr "The Star"]> (<["description" := AStr "Hope and guidance"]> ∅).

(** An empty file system in which every path can be written. *)
Definition empty_fs : FileSystem := mkFS ∅ (λ _, true).

(** The three cards that the first three-card reading of a new session
    draws under [demo_rng]. *)
Definition demo_cards : list TarotCard :=
  (draw_cards 3 (shuffle new_deck demo_rng).1).1.

(** ** A snapshot read as a mapping

    [to_dict] builds a dictionary and [from_dict] looks one up; the same
    Python object is the list of its items for the first and a finite map
    for the second.  [mapping_of] is the passage from one to the other, for
    a dictionary whose values are atoms. *)
Definition atom_of (v : pyval) : option pyatom :=
  match v with
  | PNone => Some ANone
  | PBool b => Some (ABool b)
  | PStr s => Some (AStr s)
  | PList _ | PDict _ => None
  end.

Definition mapping_of (v : pyval) : option (gmap string pyatom) :=
  match v with
  | PDict pairs =>
      list_to_map <$> mapM (λ kv, pair kv.1 <$> atom_of kv.2) pairs
  | _ => None
  end.

(** ** Sequences of deck operations

    What a holder of a [TarotDeck] can call on it, and the deck after a
    sequence of such calls on a new deck. *)
Inductive deck_op :=
  | DoShuffle (g : Random.state)
  | DoDrawCard
  | DoDrawCards (count : Z)
  | DoReset.

Definition apply_deck_op (d : TarotDeck) (op : deck_op) : TarotDeck :=
  match op with
  | DoShuffle g => (shuffle d g).1
  | DoDrawCard => (draw_card d).2
  | DoDrawCards count => (draw_cards count d).2
  | DoReset => reset d
  end.

Definition run_deck (ops : list deck_op) : TarotDeck :=
  foldl apply_deck_op new_deck ops.

(** ** Generator states with a chosen beginning

    [prepend l g] yields the raw draws of [l], then those of [g]. *)
Fixpoint prepend (l : list nat) (g : Random.state) : Random.state :=
  match l with
  | [] => g
  | j :: l' => λ k, match k with 0 => j | S k' => prepend l' g k' end
  end.

(** The cards of [cs], those marked in [turn] turned over. *)
Definition turned (turn : list bool) (cs : list TarotCard) : list TarotCard :=
  zip_with (λ (b : bool) c, if b then flip c else c) turn cs.

(** ** Sequences of readings

    The three reading methods, the number of cards each one draws, and the
    session after a sequence of readings on a new session.  Each step comes
    with the state of the generator at its call, since other code may draw
    from the generator in between. *)
Inductive reading_op := OpSingle | OpThree | OpCeltic.

Definition run_reading (self : TarotReading) (op : reading_op)
  : Random.M call :=
  match op with
  | OpSingle => single_card_reading self
  | OpThree => three_card_reading self
  | OpCeltic => celtic_cross_reading self
  end.

Definition cards_needed (op : reading_op) : nat :=
  match op with OpSingle => 1 | OpThree => 3 | OpCeltic => 10 end.

Definition run_session (steps : list (reading_op * Random.state))
  : TarotReading :=
  foldl (λ self step, (run_reading self step.1 step.2).1.2) new_reading steps.

(** The names on the card snapshots of a result: [c["name"]] for [c] in
    [reading["cards"]]. *)
Definition dealt_names (reading : pyval) : list pyval :=
  match py_lookup "cards" reading with
  | Some (PList snapshots) => omap (py_lookup "name") snapshots
  | _ => []
  end.

(** The names a session has dealt, oldest reading first, and then the names
    still in its deck. *)
Definition session_names (self : TarotReading) : list pyval :=
  concat (map dealt_names (readings_history self))
    ++ map (λ c, of_atom (name c)) (cards (deck self)).

(** ** [export_reading] of [tarot_streamlit.py]

    [json.dumps(reading, indent=2, ensure_ascii=False)] *)
Definition export_reading (reading : pyval) : string := Json.dumps reading.

(** ** Characters of a text *)

Fixpoint string_forallb (f : ascii → bool) (s : string) : bool :=
  match s with
  | "" => true
  | String c rest => f c && string_forallb f rest
  end.

(** A line feed, or a character that is not a control character. *)
Definition plain (c : ascii) : bool :=
  Ascii.eqb c "010" || (32 <=? Ascii.N_of_ascii c)%N.
(** * Properties *)

(** Appending to a string that starts with known characters computes. *)
Local Arguments String.append !_ _ / : simpl nomatch.

(** ** The random source *)

Lemma randbelow_lt n g : 0 < n → (Random.randbelow n g).1 < n.
Proof. intros Hn. simpl. apply Nat.mod_upper_bound. lia. Qed.

(** Every outcome in range is the outcome under some generator state. *)
Lemma randbelow_any n k : k < n → ∃ g, (Random.randbelow n g).1 = k.
Proof. intros Hk. exists (λ _, k). simpl. by apply Nat.mod_small. Qed.

(** ** Building the deck *)

(** [suit_meanings[suit]] never fails in [_create_deck]. *)
Lemma suit_meanings_total :
  Forall (λ suit, is_Some (assoc suit suit_meanings)) suits.
Proof. repeat constructor; by eexists. Qed.

(** ** Drawing *)

Lemma draw_card_snoc cs c :
  draw_card (mkDeck (cs ++ [c])) = (Some c, mkDeck cs).
Proof.
  unfold draw_card; simpl. rewrite last_snoc. by rewrite removelast_last.
Qed.

Lemma draw_card_empty : draw_card (mkDeck []) = (None, mkDeck []).
Proof. reflexivity. Qed.

(** [k] passes of the loop on a deck that holds at least [k] cards take the
    last [k] cards, the last one first. *)
Lemma draw_loop_spec k : ∀ cs acc,
  k ≤ length cs →
  draw_loop k (mkDeck cs) acc =
    (acc ++ reverse (drop (length cs - k) cs), mkDeck (take (length cs - k) cs)).
Proof.
  induction k as [|k IH]; intros cs acc Hk.
  - simpl. rewrite Nat.sub_0_r, drop_all, take_ge by lia.
    by rewrite app_nil_r.
  - destruct cs as [|c0 cs0] using rev_ind; [simpl in Hk; lia|].
    clear IHcs0. rewrite length_app in *. simpl in *.
    rewrite draw_card_snoc, IH by lia.
    replace (length cs0 + 1 - S k) with (length cs0 - k) by lia.
    rewrite drop_app_le, take_app_le by lia.
    rewrite reverse_app. simpl. by rewrite <- app_assoc.
Qed.

Lemma draw_cards_spec count cs :
  let k := Z.to_nat (Z.min count (Z.of_nat (length cs))) in
  draw_cards count (mkDeck cs) =
    (reverse (drop (length cs - k) cs), mkDeck (take (length cs - k) cs)).
Proof.
  intros k. unfold draw_cards. simpl. fold k.
  rewrite draw_loop_spec by (subst k; lia). done.
Qed.

Lemma draw_cards_length count d :
  length (draw_cards count d).1 =
    Z.to_nat (Z.min count (Z.of_nat (remaining_cards d))).
Proof.
  destruct d as [cs]. rewrite draw_cards_spec. simpl. unfold remaining_cards. simpl.
  rewrite length_reverse, length_drop. lia.
Qed.

Lemma draw_cards_remaining count d :
  remaining_cards (draw_cards count d).2 =
    remaining_cards d - Z.to_nat (Z.min count (Z.of_nat (remaining_cards d))).
Proof.
  destruct d as [cs]. rewrite draw_cards_spec. unfold remaining_cards. simpl.
  rewrite length_take. lia.
Qed.

(** ** Shuffling *)

Section ShuffleLists.
Context {A : Type}.
Implicit Types x : list A.

Lemma swap_Permutation x i j : swap x i j ≡ₚ x.
Proof.
  unfold swap.
  destruct (x !! i) as [xi|] eqn:Hi; [|done].
  destruct (x !! j) as [xj|] eqn:Hj; [|done].
  by apply Permutation_insert_swap.
Qed.

Lemma shuffle_from_Permutation i : ∀ x g, (shuffle_from i x g).1 ≡ₚ x.
Proof.
  induction i as [|i IH]; intros x g; [done|].
  simpl. unfold Random.bind, Random.randbelow.
  rewrite IH. apply swap_Permutation.
Qed.

Lemma random_shuffle_Permutation x g : (random_shuffle x g).1 ≡ₚ x.
Proof. apply shuffle_from_Permutation. Qed.

End ShuffleLists.

(** What a coin toss cannot change: everything but [reversed]. *)
Definition face (c : TarotCard) : pyatom * pyatom * pyatom :=
  (name c, description c, image_file c).

Lemma flip_face c : face (flip c) = face c.
Proof. reflexivity. Qed.

Lemma flip_some_faces cs : ∀ g, map face (flip_some cs g).1 = map face cs.
Proof.
  induction cs as [|c cs IH]; intros g; [done|].
  simpl. unfold Random.bind, random_choice, Random.randbelow, Random.ret.
  simpl. specialize (IH (λ k, g (S k))).
  destruct (flip_some cs _) as [rest' g'] eqn:E. simpl in *.
  rewrite IH.
  by match goal with |- context [if ?b then flip c else c] => destruct b end.
Qed.

Lemma shuffle_faces d g :
  map face (cards (shuffle d g).1) ≡ₚ map face (cards d).
Proof.
  unfold shuffle, Random.bind.
  pose proof (random_shuffle_Permutation (cards d) g) as Hp.
  destruct (random_shuffle (cards d) g) as [cs g1]. simpl in Hp.
  pose proof (flip_some_faces cs g1) as Hf.
  destruct (flip_some cs g1) as [cs' g2]. simpl in *.
  by rewrite Hf, Hp.
Qed.

Lemma shuffle_remaining d g :
  remaining_cards (shuffle d g).1 = remaining_cards d.
Proof.
  unfold remaining_cards.
  rewrite <- (length_map face), <- (length_map face (cards d)).
  apply Permutation_length, shuffle_faces.
Qed.

(** ** Readings *)

Lemma three_card_is_spread self :
  three_card_reading self =
    spread_reading 3 "Not enough cards available"
      "Three Card (Past, Present, Future)" three_card_positions self.
Proof. reflexivity. Qed.

Lemma celtic_cross_is_spread self :
  celtic_cross_reading self =
    spread_reading 10 "Not enough cards for Celtic Cross reading"
      "Celtic Cross" celtic_cross_positions self.
Proof. reflexivity. Qed.

Lemma interpret_from_spec positions : ∀ cs i acc,
  i + length cs ≤ length positions →
  interpret_from positions i cs acc =
    Ok (acc ++ zip_with position_line (drop i positions) cs).
Proof.
  induction cs as [|c cs IH]; intros i acc Hlen; simpl in *.
  - destruct (drop i positions); simpl; by rewrite app_nil_r.
  - destruct (positions !! i) as [p|] eqn:Hp.
    + rewrite IH by lia. f_equal.
      rewrite (drop_S _ _ _ Hp). simpl. by rewrite <- app_assoc.
    + apply lookup_ge_None in Hp. lia.
Qed.

Section Spread.
Variables (count : nat) (message type : string) (positions : list string).
Variables (self : TarotReading) (g : Random.state).

Let d1 := (shuffle (deck self) g).1.
Let g1 := (shuffle (deck self) g).2.

(** Too few cards: the error value, an emptied deck, the history as it was. *)
Lemma spread_short :
  remaining_cards (deck self) < count →
  spread_reading count message type positions self g =
    (Ok (error_result message),
     mkReading (mkDeck []) (readings_history self), g1).
Proof.
  intros Hlt. unfold spread_reading, Random.bind.
  pose proof (shuffle_remaining (deck self) g) as Hrem.
  subst d1 g1. destruct (shuffle (deck self) g) as [[cs1] g']. simpl in *.
  unfold remaining_cards in *. simpl in *.
  rewrite draw_cards_spec. simpl.
  replace (Z.to_nat (Z.min (Z.of_nat count) (Z.of_nat (length cs1))))
    with (length cs1) by lia.
  rewrite Nat.sub_diag, take_0, drop_0, length_reverse.
  destruct (Nat.ltb_spec (length cs1) count); [done|lia].
Qed.

(** Enough cards: the last [count] cards of the shuffled deck, last one
    first, bound to the positions in order. *)
Lemma spread_enough :
  count = length positions →
  count ≤ remaining_cards (deck self) →
  let cs := (draw_cards (Z.of_nat count) d1).1 in
  let d2 := (draw_cards (Z.of_nat count) d1).2 in
  let reading :=
    reading_result type cs (join newline (zip_with position_line positions cs)) in
  length cs = count ∧
  remaining_cards d2 = remaining_cards (deck self) - count ∧
  spread_reading count message type positions self g =
    (Ok reading, mkReading d2 (readings_history self ++ [reading]), g1).
Proof.
  intros Hpos Hle cs d2 reading.
  pose proof (shuffle_remaining (deck self) g) as Hrem. fold d1 in Hrem.
  assert (Hcs : length cs = count).
  { subst cs. rewrite draw_cards_length. lia. }
  split; [done|]. split.
  { subst d2. rewrite draw_cards_remaining. lia. }
  unfold spread_reading, Random.bind. subst reading cs d2 d1 g1.
  destruct (shuffle (deck self) g) as [d1 g']. simpl in *.
  destruct (draw_cards (Z.of_nat count) d1) as [cs d2]. simpl in *.
  destruct (Nat.ltb_spec (length cs) count); [lia|].
  unfold Random.ret.
  rewrite interpret_from_spec by (simpl; lia). by rewrite drop_0.
Qed.

End Spread.

Lemma single_card_empty self g :
  remaining_cards (deck self) = 0 →
  single_card_reading self g =
    (Ok (error_result "No cards available"),
     mkReading (mkDeck []) (readings_history self), (shuffle (deck self) g).2).
Proof.
  intros H0. unfold single_card_reading, Random.bind.
  pose proof (shuffle_remaining (deck self) g) as Hrem.
  destruct (shuffle (deck self) g) as [[cs1] g']. unfold remaining_cards in *.
  simpl in *. destruct cs1; [done|simpl in *; lia].
Qed.

Lemma single_card_enough self g :
  1 ≤ remaining_cards (deck self) →
  ∃ card rest,
    cards (shuffle (deck self) g).1 = rest ++ [card] ∧
    let reading := reading_result "Single Card" [card]
                     ("Today's guidance: " +:+ get_meaning card) in
    single_card_reading self g =
      (Ok reading, mkReading (mkDeck rest) (readings_history self ++ [reading]),
       (shuffle (deck self) g).2).
Proof.
  intros H1. unfold single_card_reading, Random.bind.
  pose proof (shuffle_remaining (deck self) g) as Hrem.
  destruct (shuffle (deck self) g) as [[cs1] g']. unfold remaining_cards in *.
  simpl in *. destruct cs1 as [|c cs1 _] using rev_ind; [simpl in *; lia|].
  exists c, cs1. split; [done|]. by rewrite draw_card_snoc.
Qed.

(** The three results that are not errors have the shape of a reading. *)
Lemma successful_result_shape self g r :
  ((single_card_reading self g).1.1 = Ok r ∨
   (three_card_reading self g).1.1 = Ok r ∨
   (celtic_cross_reading self g).1.1 = Ok r) →
  is_error r = false →
  ∃ type cs interpretation, r = reading_result type cs interpretation.
Proof.
  assert (Hspread : ∀ count message type positions,
            count = length positions →
            (spread_reading count message type positions self g).1.1 = Ok r →
            is_error r = false →
            ∃ type cs interpretation, r = reading_result type cs interpretation).
  { intros count message type positions Hpos Hr Hok.
    destruct (decide (remaining_cards (deck self) < count)) as [Hlt|Hge].
    - rewrite spread_short in Hr by done. by simplify_eq/=.
    - destruct (spread_enough count message type positions self g Hpos)
        as (_ & _ & Heq); [lia|].
      rewrite Heq in Hr. simplify_eq/=. eauto. }
  intros [Hr|[Hr|Hr]] Hok.
  - destruct (decide (remaining_cards (deck self) = 0)) as [H0|H1].
    + rewrite single_card_empty in Hr by done. by simplify_eq/=.
    + destruct (single_card_enough self g) as (card & rest & _ & Heq); [lia|].
      cbv zeta in Heq. rewrite Heq in Hr. cbn [fst] in Hr.
      injection Hr as <-. by eexists _, _, _.
  - rewrite three_card_is_spread in Hr.
    eapply Hspread; [|exact Hr|exact Hok]. reflexivity.
  - rewrite celtic_cross_is_spread in Hr.
    eapply Hspread; [|exact Hr|exact Hok]. reflexivity.
Qed.

(** The first three-card reading of a new session: its type, three cards,
    and a history of one. *)
Lemma three_card_on_new_session g :
  ∃ r cs,
    three_card_reading new_reading g
      = (Ok r, mkReading (draw_cards 3 (shuffle new_deck g).1).2 [r],
         (shuffle new_deck g).2) ∧
    py_lookup "type" r = Some (PStr "Three Card (Past, Present, Future)") ∧
    py_lookup "cards" r = Some (PList (map to_dict cs)) ∧
    length cs = 3.
Proof.
  rewrite three_card_is_spread.
  destruct (spread_enough 3 "Not enough cards available"
              "Three Card (Past, Present, Future)" three_card_positions
              new_reading g eq_refl) as (Hlen & _ & Heq).
  { change (remaining_cards (deck new_reading)) with 78. lia. }
  rewrite Heq. eexists _, _. split; [reflexivity|].
  split; [reflexivity|]. split; [reflexivity|]. exact Hlen.
Qed.

(** [draw_card()] on an empty deck returns [None] and changes nothing, any
    number of times. *)
Lemma draw_card_empty_again d :
  remaining_cards d = 0 → draw_card d = (None, d).
Proof. destruct d as [[|c cs]]; [done|]. unfold remaining_cards. simpl. lia. Qed.

Lemma is_error_error_result msg : is_error (error_result msg) = true.
Proof. reflexivity. Qed.

Lemma is_error_reading_result type cs interpretation :
  is_error (reading_result type cs interpretation) = false.
Proof. reflexivity. Qed.

(** ** Strings *)

Lemma string_app_assoc (s1 s2 s3 : string) :
  (s1 +:+ s2) +:+ s3 = s1 +:+ (s2 +:+ s3).
Proof. induction s1 as [|a s1 IH]; [done|]. simpl. by rewrite IH. Qed.

Lemma string_app_nil_r (s : string) : s +:+ "" = s.
Proof. induction s as [|a s IH]; [done|]. simpl. by rewrite IH. Qed.

(** ** Encoding and decoding *)

(** Induction on a value with the hypothesis for every item of a list and
    every value of a dictionary. *)
Lemma pyval_ind' (P : pyval → Prop) :
  P PNone →
  (∀ b, P (PBool b)) →
  (∀ s, P (PStr s)) →
  (∀ items, Forall P items → P (PList items)) →
  (∀ pairs, Forall (λ kv, P kv.2) pairs → P (PDict pairs)) →
  ∀ v, P v.
Proof.
  intros HNone HBool HStr HList HDict.
  fix IH 1. intros [| b | s | items | pairs].
  - exact HNone.
  - apply HBool.
  - apply HStr.
  - apply HList. induction items as [|x items IHitems]; constructor.
    + apply IH.
    + exact IHitems.
  - apply HDict. induction pairs as [|[k x] pairs IHpairs]; constructor.
    + apply IH.
    + exact IHpairs.
Qed.

Lemma string_length_app (s1 s2 : string) :
  String.length (s1 +:+ s2) = String.length s1 + String.length s2.
Proof. induction s1 as [|a s1 IH]; [done|]. simpl. by rewrite IH. Qed.

Module JsonFacts.
Import Json.

(** A character that was escaped is read back as itself. *)
Lemma scanstring_escape_char (c : ascii) (t : string) :
  scanstring (escape_char c +:+ t) = chunk_then (String c "") (scanstring t).
Proof. destruct c as [[] [] [] [] [] [] [] []]; reflexivity. Qed.

Lemma scanstring_escape (s rest : string) :
  scanstring (escape s +:+ String dquote rest) = Some (s, rest).
Proof.
  induction s as [|c s IH]; [done|].
  simpl escape. rewrite string_app_assoc, scanstring_escape_char, IH. done.
Qed.

Lemma scan_once_basestring fuel (s rest : string) :
  scan_once (S fuel) (encode_basestring s +:+ rest) = Some (PStr s, rest).
Proof.
  unfold encode_basestring. simpl. rewrite string_app_assoc. simpl.
  by rewrite scanstring_escape.
Qed.

Lemma skip_ws_spaces n (t : string) : skip_ws (spaces n +:+ t) = skip_ws t.
Proof. induction n as [|n IH]; [done|]. simpl. exact IH. Qed.

Lemma skip_ws_space (t : string) : skip_ws (String " " t) = skip_ws t.
Proof. reflexivity. Qed.

Lemma skip_ws_newline_indent level (t : string) :
  skip_ws (newline_indent level +:+ t) = skip_ws t.
Proof.
  unfold newline_indent, newline. simpl. apply skip_ws_spaces.
Qed.

(** *** One step of the decoder at a time *)

Lemma array_items_last fuel (s r r1 : string) value :
  scan_once fuel s = Some (value, r) →
  skip_ws r = String "]" r1 →
  array_items (S fuel) s = Some ([value], r1).
Proof. intros Hv Hr. simpl. by rewrite Hv, Hr. Qed.

Lemma array_items_more fuel (s r r1 r2 : string) value values :
  scan_once fuel s = Some (value, r) →
  skip_ws r = String "," r1 →
  array_items fuel (skip_ws r1) = Some (values, r2) →
  array_items (S fuel) s = Some (value :: values, r2).
Proof. intros Hv Hr Hvs. simpl. by rewrite Hv, Hr, Hvs. Qed.

Lemma object_items_last fuel (s r r1 r2 r3 : string) key value :
  scanstring s = Some (key, r) →
  skip_ws r = String ":" r1 →
  scan_once fuel (skip_ws r1) = Some (value, r2) →
  skip_ws r2 = String "}" r3 →
  object_items (S fuel) s = Some ([(key, value)], r3).
Proof. intros Hk Hr Hv Hr2. simpl. by rewrite Hk, Hr, Hv, Hr2. Qed.

Lemma object_items_more fuel (s r r1 r2 r3 r4 r5 : string) key value pairs :
  scanstring s = Some (key, r) →
  skip_ws r = String ":" r1 →
  scan_once fuel (skip_ws r1) = Some (value, r2) →
  skip_ws r2 = String "," r3 →
  skip_ws r3 = String dquote r4 →
  object_items fuel r4 = Some (pairs, r5) →
  object_items (S fuel) s = Some ((key, value) :: pairs, r5).
Proof.
  intros Hk Hr Hv Hr2 Hr3 Hps. simpl. by rewrite Hk, Hr, Hv, Hr2, Hr3, Hps.
Qed.

Lemma scan_once_array fuel (rest r r' : string) c values :
  skip_ws rest = String c r →
  Ascii.eqb c "]" = false →
  array_items fuel (String c r) = Some (values, r') →
  scan_once (S fuel) (String "[" rest) = Some (PList values, r').
Proof. intros Hr Hc Hvs. simpl. by rewrite Hr, Hc, Hvs. Qed.

Lemma scan_once_object fuel (rest r r' : string) pairs :
  skip_ws rest = String dquote r →
  object_items fuel r = Some (pairs, r') →
  scan_once (S fuel) (String "{" rest) = Some (PDict (dict_of_pairs pairs), r').
Proof. intros Hr Hps. simpl. by rewrite Hr, Hps. Qed.

(** *** The decoder and its relation *)

Lemma skip_ws_length (s : string) :
  String.length (skip_ws s) ≤ String.length s.
Proof.
  induction s as [|c s IH]; [done|]. simpl. destruct (is_ws c); simpl; lia.
Qed.

Lemma skip_ws_head_length (s r : string) c :
  skip_ws s = String c r → String.length r < String.length s.
Proof.
  intros H. pose proof (skip_ws_length s) as Hlen. rewrite H in Hlen.
  simpl in Hlen. lia.
Qed.

Lemma after_word_inv (word s r : string) :
  after_word word s = Some r → s = word +:+ r.
Proof.
  revert s. induction word as [|w word IH]; intros s H; simpl in H.
  - by injection H as ->.
  - destruct s as [|c s]; [done|].
    destruct (Ascii.eqb_spec w c) as [->|]; [|done].
    simpl. f_equal. by apply IH.
Qed.

(** A string takes at least its closing quote. *)
Lemma scanstring_length_upto n : ∀ (s content r : string),
  String.length s ≤ n →
  scanstring s = Some (content, r) →
  String.length r < String.length s.
Proof.
  induction n as [|n IH]; intros s content r Hn H;
    (destruct s as [|c s]; [discriminate H|]); simpl in Hn; [lia|].
  simpl in H. unfold chunk_then in H.
  repeat case_match; simplify_eq;
    repeat match goal with
    | E : scanstring ?t = Some _ |- _ =>
        apply IH in E; [|cbn [String.length] in *; lia]
    end; cbn [String.length] in *; lia.
Qed.

Lemma scanstring_length (s content r : string) :
  scanstring s = Some (content, r) → String.length r < String.length s.
Proof. by apply (scanstring_length_upto (String.length s)). Qed.

(** What the decoder returns, the relation holds of. *)
Lemma scan_once_sound fuel :
  (∀ s v r, scan_once fuel s = Some (v, r) → scans s v r) ∧
  (∀ s vs r, array_items fuel s = Some (vs, r) → scans_values s vs r) ∧
  (∀ s ps r, object_items fuel s = Some (ps, r) → scans_pairs s ps r).
Proof.
  induction fuel as [|fuel (IHs & IHa & IHo)]; [by repeat split|].
  split; [|split]; intros s x r H.
  - destruct s as [|c s]; [done|]. cbn [scan_once] in H.
    destruct (Ascii.eqb_spec c dquote) as [->|_].
    { destruct (scanstring s) as [[content r']|] eqn:E; [|done].
      injection H as <- <-. by constructor. }
    destruct (Ascii.eqb_spec c "{") as [->|_].
    { destruct (skip_ws s) as [|c1 r1] eqn:E; [done|].
      destruct (Ascii.eqb_spec c1 "}") as [->|_].
      { injection H as <- <-. by constructor. }
      destruct (Ascii.eqb_spec c1 dquote) as [->|_]; [|done].
      destruct (object_items fuel r1) as [[pairs r']|] eqn:E'; [|done].
      injection H as <- <-. eapply scans_object; eauto. }
    destruct (Ascii.eqb_spec c "[") as [->|_].
    { destruct (skip_ws s) as [|c1 r1] eqn:E; [done|].
      destruct (Ascii.eqb c1 "]") eqn:Hc.
      { apply Ascii.eqb_eq in Hc as ->. injection H as <- <-.
        by constructor. }
      destruct (array_items fuel (String c1 r1)) as [[values r']|] eqn:E';
        [|done].
      injection H as <- <-. eapply scans_array; eauto. }
    destruct (after_word "null" (String c s)) as [r'|] eqn:E.
    { injection H as <- <-. apply after_word_inv in E as ->. constructor. }
    destruct (after_word "true" (String c s)) as [r'|] eqn:E1.
    { injection H as <- <-. apply after_word_inv in E1 as ->. constructor. }
    destruct (after_word "false" (String c s)) as [r'|] eqn:E2; [|done].
    injection H as <- <-. apply after_word_inv in E2 as ->. constructor.
  - cbn [array_items] in H.
    destruct (scan_once fuel s) as [[value r0]|] eqn:E; [|done].
    destruct (skip_ws r0) as [|c r1] eqn:E0; [done|].
    destruct (Ascii.eqb_spec c "]") as [->|_].
    { injection H as <- <-. eapply scans_values_last; eauto. }
    destruct (Ascii.eqb_spec c ",") as [->|_]; [|done].
    destruct (array_items fuel (skip_ws r1)) as [[values r2]|] eqn:E1; [|done].
    injection H as <- <-. eapply scans_values_more; eauto.
  - cbn [object_items] in H.
    destruct (scanstring s) as [[key r0]|] eqn:E; [|done].
    destruct (skip_ws r0) as [|c r1] eqn:E0; [done|].
    destruct (Ascii.eqb_spec c ":") as [->|_]; [|done].
    destruct (scan_once fuel (skip_ws r1)) as [[value r2]|] eqn:E1; [|done].
    destruct (skip_ws r2) as [|c2 r3] eqn:E2; [done|].
    destruct (Ascii.eqb_spec c2 "}") as [->|_].
    { injection H as <- <-. eapply scans_pairs_last; eauto. }
    destruct (Ascii.eqb_spec c2 ",") as [->|_]; [|done].
    destruct (skip_ws r3) as [|c3 r4] eqn:E3; [done|].
    destruct (Ascii.eqb_spec c3 dquote) as [->|_]; [|done].
    destruct (object_items fuel r4) as [[pairs r5]|] eqn:E4; [|done].
    injection H as <- <-. eapply scans_pairs_more; eauto.
Qed.

(** What the relation holds of, the decoder returns, given as much fuel as
    the value has characters. *)
Lemma scans_complete :
  (∀ s v r, scans s v r →
     String.length r < String.length s ∧
     ∀ fuel, String.length s - String.length r ≤ fuel →
             scan_once fuel s = Some (v, r)) ∧
  (∀ s vs r, scans_values s vs r →
     String.length r < String.length s ∧
     ∀ fuel, String.length s - String.length r ≤ fuel →
             array_items fuel s = Some (vs, r)) ∧
  (∀ s ps r, scans_pairs s ps r →
     String.length r < String.length s ∧
     ∀ fuel, String.length s - String.length r ≤ fuel →
             object_items fuel s = Some (ps, r)).
Proof.
  apply scans_mutind.
  - intros rest content r H. pose proof (scanstring_length _ _ _ H).
    simpl. split; [lia|]. intros [|fuel] Hf; [lia|]. simpl. by rewrite H.
  - intros rest r H. pose proof (skip_ws_head_length _ _ _ H).
    simpl. split; [lia|]. intros [|fuel] Hf; [lia|]. simpl. by rewrite H.
  - intros rest r1 pairs r H _ [Hlen IH].
    pose proof (skip_ws_head_length _ _ _ H).
    simpl. split; [lia|]. intros [|fuel] Hf; [lia|].
    eapply scan_once_object; [exact H|]. apply IH. lia.
  - intros rest r H. pose proof (skip_ws_head_length _ _ _ H).
    simpl. split; [lia|]. intros [|fuel] Hf; [lia|]. simpl. by rewrite H.
  - intros rest c r1 values r H Hc _ [Hlen IH].
    pose proof (skip_ws_length rest) as Hskip. rewrite H in Hskip.
    simpl in *. split; [lia|]. intros [|fuel] Hf; [lia|].
    eapply scan_once_array; [exact H|exact Hc|]. apply IH. simpl. lia.
  - intros r. rewrite string_length_app. simpl. split; [lia|].
    by intros [|fuel] Hf; [lia|].
  - intros r. rewrite string_length_app. simpl. split; [lia|].
    by intros [|fuel] Hf; [lia|].
  - intros r. rewrite string_length_app. simpl. split; [lia|].
    by intros [|fuel] Hf; [lia|].
  - intros s value r r1 _ [Hlen IH] H.
    pose proof (skip_ws_head_length _ _ _ H).
    split; [lia|]. intros [|fuel] Hf; [lia|].
    eapply array_items_last; [|exact H]. apply IH. lia.
  - intros s value r r1 values r2 _ [Hlen IH] H _ [Hlen2 IH2].
    pose proof (skip_ws_head_length _ _ _ H).
    pose proof (skip_ws_length r1).
    split; [lia|]. intros [|fuel] Hf; [lia|].
    eapply array_items_more; [|exact H|]; [apply IH|apply IH2]; lia.
  - intros s key r r1 value r2 r3 Hk Hr _ [Hlen IH] Hr2.
    pose proof (scanstring_length _ _ _ Hk).
    pose proof (skip_ws_head_length _ _ _ Hr).
    pose proof (skip_ws_length r1).
    pose proof (skip_ws_head_length _ _ _ Hr2).
    split; [lia|]. intros [|fuel] Hf; [lia|].
    eapply object_items_last; [exact Hk|exact Hr| |exact Hr2].
    apply IH. lia.
  - intros s key r r1 value r2 r3 r4 pairs r5 Hk Hr _ [Hlen IH] Hr2 Hr3
      _ [Hlen2 IH2].
    pose proof (scanstring_length _ _ _ Hk).
    pose proof (skip_ws_head_length _ _ _ Hr).
    pose proof (skip_ws_length r1).
    pose proof (skip_ws_head_length _ _ _ Hr2).
    pose proof (skip_ws_head_length _ _ _ Hr3).
    split; [lia|]. intros [|fuel] Hf; [lia|].
    eapply object_items_more;
      [exact Hk|exact Hr| |exact Hr2|exact Hr3|];
      [apply IH|apply IH2]; lia.
Qed.

(** A value read with some fuel is read with any fuel that is at least the
    number of characters it takes; the fuel of [loads] is such a fuel. *)
Lemma scan_once_fuel fuel fuel' (s r : string) v :
  scan_once fuel s = Some (v, r) →
  String.length s - String.length r ≤ fuel' →
  scan_once fuel' s = Some (v, r).
Proof.
  intros H Hf. apply (proj1 (scan_once_sound fuel)) in H.
  apply (proj1 scans_complete) in H as [_ H']. by apply H'.
Qed.

Lemma loads_scans (s : string) v :
  loads s = Some v ↔ ∃ r, scans (skip_ws s) v r ∧ skip_ws r = "".
Proof.
  unfold loads. split.
  - destruct (scan_once _ _) as [[obj rest]|] eqn:H; [|done].
    apply (proj1 (scan_once_sound _)) in H.
    destruct (skip_ws rest) eqn:Hrest; [|done]. intros [= <-]. eauto.
  - intros (r & H & Hr).
    apply (proj1 scans_complete) in H as [_ H].
    rewrite H, Hr; [done|]. pose proof (skip_ws_length s). lia.
Qed.

(** *** [dict(pairs)] of pairs with distinct keys *)

Lemma dict_set_fresh key value dct :
  key ∉ map fst dct → dict_set key value dct = dct ++ [(key, value)].
Proof.
  induction dct as [|[k v] dct IH]; intros Hfresh; [done|].
  simpl in *. apply not_elem_of_cons in Hfresh as [Hne Hfresh].
  destruct (String.eqb_spec k key) as [->|_]; [done|].
  by rewrite IH.
Qed.

Lemma dict_of_pairs_from acc pairs :
  NoDup (map fst (acc ++ pairs)) →
  foldl (λ dct kv, dict_set kv.1 kv.2 dct) acc pairs = acc ++ pairs.
Proof.
  revert acc. induction pairs as [|[k v] pairs IH]; intros acc Hnd.
  - by rewrite app_nil_r.
  - simpl. rewrite dict_set_fresh.
    + rewrite IH; by rewrite <- app_assoc.
    + rewrite map_app in Hnd. apply NoDup_app in Hnd as (_ & Hdisj & _).
      intros Hin. apply (Hdisj _ Hin). simpl. left.
Qed.

Lemma dict_of_pairs_unique pairs :
  NoDup (map fst pairs) → dict_of_pairs pairs = pairs.
Proof. intros Hnd. by apply (dict_of_pairs_from []). Qed.

(** *** What the text of a value starts with *)

Lemma iterencode_head level v (rest : string) :
  ∃ c t, iterencode level v +:+ rest = String c t ∧
         is_ws c = false ∧ Ascii.eqb c "]" = false.
Proof.
  destruct v as [|[]|s|[|x items]|[|kv pairs]]; simpl; eauto.
Qed.

Lemma skip_ws_iterencode level v (rest : string) :
  skip_ws (iterencode level v +:+ rest) = iterencode level v +:+ rest.
Proof.
  destruct (iterencode_head level v rest) as (c & t & -> & Hws & _).
  simpl. by rewrite Hws.
Qed.

Lemma join_cons_cons (sep a b : string) (l : list string) :
  join sep (a :: b :: l) = a +:+ sep +:+ join sep (b :: l).
Proof. reflexivity. Qed.

Lemma encode_item_unfold level k v (rest : string) :
  encode_item level (k, v) +:+ rest =
    String dquote (escape k +:+ String dquote
      (String ":" (String " " (iterencode level v +:+ rest)))).
Proof.
  unfold encode_item, encode_basestring. simpl.
  by rewrite !string_app_assoc.
Qed.

Lemma join_items_head level sep kv pairs (rest : string) :
  ∃ t, join sep (map (encode_item level) (kv :: pairs)) +:+ rest
         = String dquote t.
Proof.
  destruct kv as [k v]. destruct pairs as [|kv2 pairs].
  - simpl join. rewrite encode_item_unfold. eauto.
  - simpl map. rewrite join_cons_cons, string_app_assoc, encode_item_unfold.
    eauto.
Qed.

Lemma array_items_spec level (rest : string) : ∀ items fuel,
  items ≠ [] →
  Forall reads_back items →
  forallb unique_keys items = true →
  foldr (λ x n, S (size x) + n) 0 items ≤ fuel →
  array_items fuel
    (join ("," +:+ newline_indent (S level))
       (map (iterencode (S level)) items)
     +:+ newline_indent level +:+ String "]" rest) = Some (items, rest).
Proof.
  induction items as [|v items IH]; intros fuel Hne Hall Huk Hfuel; [done|].
  apply Forall_cons in Hall as [Hv Hall].
  simpl in Huk. apply andb_prop in Huk as [Hukv Huk].
  simpl in Hfuel. destruct fuel as [|fuel]; [lia|].
  destruct items as [|v2 items].
  - simpl join. eapply array_items_last.
    + apply Hv; [done|lia].
    + by rewrite skip_ws_newline_indent.
  - simpl map. rewrite join_cons_cons, !string_app_assoc.
    eapply array_items_more.
    + apply Hv; [done|lia].
    + reflexivity.
    + rewrite skip_ws_newline_indent.
      change (iterencode (S level) v2 :: map (iterencode (S level)) items)
        with (map (iterencode (S level)) (v2 :: items)).
      assert (Hskip : ∀ u : string,
                skip_ws (join ("," +:+ newline_indent (S level))
                           (map (iterencode (S level)) (v2 :: items)) +:+ u)
                = join ("," +:+ newline_indent (S level))
                    (map (iterencode (S level)) (v2 :: items)) +:+ u).
      { intros u. destruct items as [|v3 items].
        - simpl join. apply skip_ws_iterencode.
        - simpl map. rewrite join_cons_cons, !string_app_assoc.
          apply skip_ws_iterencode. }
      rewrite Hskip. apply IH; [done|done|done|simpl in *; lia].
Qed.

(** From [String c t = String c u], replace [t] by [u] as it is written. *)
Ltac string_tail H :=
  match type of H with
  | String _ ?t = String _ ?u =>
      let E := fresh in
      assert (E : t = u) by congruence; clear H; subst t
  end.

Lemma object_items_spec level (rest : string) : ∀ pairs fuel t,
  pairs ≠ [] →
  Forall (λ kv, reads_back kv.2) pairs →
  forallb (λ kv, unique_keys kv.2) pairs = true →
  foldr (λ kv n, S (size kv.2) + n) 0 pairs ≤ fuel →
  String dquote t =
    join ("," +:+ newline_indent (S level))
      (map (encode_item (S level)) pairs)
    +:+ newline_indent level +:+ String "}" rest →
  object_items fuel t = Some (pairs, rest).
Proof.
  induction pairs as [|[k v] pairs IH]; intros fuel t Hne Hall Huk Hfuel Ht;
    [done|].
  apply Forall_cons in Hall as [Hv Hall]. simpl in Hv.
  simpl in Huk. apply andb_prop in Huk as [Hukv Huk].
  simpl in Hfuel. destruct fuel as [|fuel]; [lia|].
  destruct pairs as [|kv2 pairs].
  - cbn [join map] in Ht. rewrite encode_item_unfold in Ht.
    string_tail Ht.
    eapply object_items_last.
    + apply scanstring_escape.
    + reflexivity.
    + rewrite skip_ws_space, skip_ws_iterencode. apply Hv; [done|lia].
    + by rewrite skip_ws_newline_indent.
  - cbn [map] in Ht.
    rewrite join_cons_cons, string_app_assoc, encode_item_unfold in Ht.
    string_tail Ht.
    change (encode_item (S level) kv2 :: map (encode_item (S level)) pairs)
      with (map (encode_item (S level)) (kv2 :: pairs)).
    rewrite !string_app_assoc.
    destruct (join_items_head (S level) ("," +:+ newline_indent (S level))
                kv2 pairs (newline_indent level +:+ String "}" rest))
      as [t' Ht'].
    eapply object_items_more.
    + apply scanstring_escape.
    + reflexivity.
    + rewrite skip_ws_space, skip_ws_iterencode. apply Hv; [done|lia].
    + reflexivity.
    + rewrite skip_ws_newline_indent, Ht'. reflexivity.
    + apply IH; [done|done|done|simpl in *; lia|done].
Qed.

Lemma size_list items :
  size (PList items) = S (foldr (λ x n, S (size x) + n) 0 items).
Proof. reflexivity. Qed.

Lemma size_dict pairs :
  size (PDict pairs) = S (foldr (λ kv n, S (size kv.2) + n) 0 pairs).
Proof. reflexivity. Qed.

Lemma iterencode_list level v items :
  iterencode level (PList (v :: items)) =
    "[" +:+ newline_indent (S level)
      +:+ join ("," +:+ newline_indent (S level))
            (map (iterencode (S level)) (v :: items))
      +:+ newline_indent level +:+ "]".
Proof. reflexivity. Qed.

Lemma iterencode_dict level kv pairs :
  iterencode level (PDict (kv :: pairs)) =
    "{" +:+ newline_indent (S level)
      +:+ join ("," +:+ newline_indent (S level))
            (map (encode_item (S level)) (kv :: pairs))
      +:+ newline_indent level +:+ "}".
Proof. reflexivity. Qed.

(** The text of a value is read back as that value. *)
Lemma iterencode_reads_back v : reads_back v.
Proof.
  induction v as [| b | s | items IH | pairs IH] using pyval_ind';
    intros Huk level fuel rest Hfuel;
    (destruct fuel as [|fuel]; [simpl in Hfuel; lia|]).
  - reflexivity.
  - by destruct b.
  - apply scan_once_basestring.
  - destruct items as [|v items]; [reflexivity|].
    set (items' := v :: items) in *.
    assert (Htext : iterencode level (PList items') +:+ rest =
              String "[" (newline_indent (S level) +:+
                join ("," +:+ newline_indent (S level))
                  (map (iterencode (S level)) items')
                +:+ newline_indent level +:+ String "]" rest)).
    { subst items'. by rewrite iterencode_list, !string_app_assoc. }
    rewrite Htext.
    assert (Hitems : array_items fuel
              (join ("," +:+ newline_indent (S level))
                 (map (iterencode (S level)) items')
               +:+ newline_indent level +:+ String "]" rest)
              = Some (items', rest)).
    { apply array_items_spec; [done|done|exact Huk|].
      rewrite size_list in Hfuel. lia. }
    revert Hitems. subst items'. simpl map.
    destruct (iterencode_head (S level) v
                (match items with
                 | [] => ""
                 | _ => ("," +:+ newline_indent (S level)) +:+
                        join ("," +:+ newline_indent (S level))
                          (map (iterencode (S level)) items)
                 end +:+ newline_indent level +:+ String "]" rest))
      as (c & t & Hhead & Hws & Hc).
    assert (Hjoin : join ("," +:+ newline_indent (S level))
                      (iterencode (S level) v
                        :: map (iterencode (S level)) items)
                    +:+ newline_indent level +:+ String "]" rest
                    = String c t).
    { rewrite <- Hhead. destruct items as [|v2 items].
      - simpl join. reflexivity.
      - simpl map. by rewrite join_cons_cons, !string_app_assoc. }
    rewrite Hjoin. intros Hitems.
    eapply scan_once_array; [|exact Hc|exact Hitems].
    rewrite skip_ws_newline_indent. simpl. by rewrite Hws.
  - destruct pairs as [|kv pairs]; [reflexivity|].
    set (pairs' := kv :: pairs) in *.
    simpl in Huk. apply andb_prop in Huk as [Hnd Huk].
    apply bool_decide_eq_true in Hnd.
    assert (Htext : iterencode level (PDict pairs') +:+ rest =
              String "{" (newline_indent (S level) +:+
                join ("," +:+ newline_indent (S level))
                  (map (encode_item (S level)) pairs')
                +:+ newline_indent level +:+ String "}" rest)).
    { subst pairs'. by rewrite iterencode_dict, !string_app_assoc. }
    rewrite Htext.
    destruct (join_items_head (S level) ("," +:+ newline_indent (S level))
                kv pairs (newline_indent level +:+ String "}" rest))
      as [t Ht].
    rewrite <- (dict_of_pairs_unique pairs') at 2 by done.
    eapply scan_once_object.
    + rewrite skip_ws_newline_indent. fold pairs' in Ht. rewrite Ht.
      reflexivity.
    + apply object_items_spec with (level := level);
        [done|done|exact Huk|rewrite size_dict in Hfuel; lia|].
      by rewrite <- Ht.
Qed.

(** *** The fuel that [loads] gives is enough *)

Lemma join_length_ge {A} (f : A → string) (w : A → nat) (sep : string) items :
  1 ≤ String.length sep →
  Forall (λ x, w x ≤ String.length (f x)) items →
  foldr (λ x n, S (w x) + n) 0 items
    ≤ String.length (join sep (map f items)) + 1.
Proof.
  intros Hsep. induction 1 as [|x items Hx Hall IH]; [simpl; lia|].
  destruct items as [|y items].
  - simpl. lia.
  - cbn [map] in *. rewrite join_cons_cons, !string_length_app.
    cbn [foldr] in *. lia.
Qed.

Lemma newline_indent_length level :
  1 ≤ String.length (newline_indent level).
Proof. unfold newline_indent, newline. simpl. lia. Qed.

Lemma size_le_length v : ∀ level, size v ≤ String.length (iterencode level v).
Proof.
  induction v as [| b | s | items IH | pairs IH] using pyval_ind';
    intros level.
  - simpl. lia.
  - destruct b; simpl; lia.
  - simpl. lia.
  - destruct items as [|v items]; [simpl; lia|].
    rewrite iterencode_list, size_list, !string_length_app.
    pose proof (join_length_ge (iterencode (S level)) size
                  ("," +:+ newline_indent (S level)) (v :: items)) as Hj.
    pose proof (newline_indent_length level).
    pose proof (newline_indent_length (S level)).
    simpl String.length at 1.
    assert (1 ≤ String.length ("," +:+ newline_indent (S level)))
      by (rewrite string_length_app; lia).
    assert (Forall (λ x, size x ≤ String.length (iterencode (S level) x))
              (v :: items))
      by (eapply Forall_impl; [exact IH|]; simpl; auto).
    specialize (Hj ltac:(done) ltac:(done)). lia.
  - destruct pairs as [|kv pairs]; [simpl; lia|].
    rewrite iterencode_dict, size_dict, !string_length_app.
    pose proof (join_length_ge (encode_item (S level)) (λ kv, size kv.2)
                  ("," +:+ newline_indent (S level)) (kv :: pairs)) as Hj.
    pose proof (newline_indent_length level).
    pose proof (newline_indent_length (S level)).
    simpl String.length at 1.
    assert (1 ≤ String.length ("," +:+ newline_indent (S level)))
      by (rewrite string_length_app; lia).
    assert (Forall (λ x, size x.2 ≤ String.length (encode_item (S level) x))
              (kv :: pairs)).
    { eapply Forall_impl; [exact IH|]. intros [k x] Hx. simpl in *.
      unfold encode_item. rewrite !string_length_app. specialize (Hx (S level)).
      simpl. lia. }
    specialize (Hj ltac:(done) ltac:(done)). lia.
Qed.

(** Encoding and then decoding returns the value. *)
Lemma loads_dumps v : unique_keys v = true → loads (dumps v) = Some v.
Proof.
  intros Huk. unfold loads, dumps.
  rewrite <- (string_app_nil_r (iterencode 0 v)) at 2.
  rewrite skip_ws_iterencode, iterencode_reads_back; [done|done|].
  pose proof (size_le_length v 0). lia.
Qed.

End JsonFacts.

(** ** Files *)

Lemma unique_keys_to_dict c : unique_keys (to_dict c) = true.
Proof. by destruct c as [[] [] [] []]. Qed.

Lemma unique_keys_reading_result type cs interpretation :
  unique_keys (reading_result type cs interpretation) = true.
Proof.
  unfold reading_result. cbn [unique_keys map fst forallb snd].
  rewrite !andb_true_r. apply andb_true_intro. split; [done|].
  induction cs as [|c cs IH]; [done|].
  cbn [map forallb]. by rewrite unique_keys_to_dict, IH.
Qed.

Lemma save_then_load fs fs' filename reading :
  unique_keys reading = true →
  save_reading fs filename reading = (true, fs') →
  load_reading fs' filename = Some reading.
Proof.
  intros Huk. unfold save_reading, load_reading.
  destruct (writable fs filename); [|discriminate].
  intros [= <-]. simpl. rewrite lookup_insert_eq.
  by apply JsonFacts.loads_dumps.
Qed.

(** * The statements of the specification *)

(** ** The deck *)

(** C2.  A deck is the same after [TarotDeck()] and after [reset()],
    whatever was drawn, shuffled or flipped before: it holds 78 cards, their
    names are the canonical table in its order (the 22 major names, then for
    each of Cups, Wands, Swords and Pentacles the ten numbered names and the
    four court names Page, Knight, Queen, King), no name occurs twice, and
    every card is upright. *)
Theorem C2_new_and_reset_deck (d : TarotDeck) :
  reset d = new_deck ∧
  remaining_cards new_deck = 78 ∧
  remaining_cards (reset d) = 78 ∧
  map name (cards new_deck) = map AStr canonical_names ∧
  NoDup (map name (cards new_deck)) ∧
  NoDup canonical_names ∧
  Forall (λ c, reversed c = ABool false) (cards new_deck) ∧
  canonical_names =
    map fst major_arcana
      ++ concat (map (λ suit,
           map (λ i, (if Nat.eqb i 1 then "Ace" else pretty i)
                       +:+ " of " +:+ suit) (seq 1 10)
             ++ map (λ court, court +:+ " of " +:+ suit)
                  ["Page"; "Knight"; "Queen"; "King"])
           ["Cups"; "Wands"; "Swords"; "Pentacles"]).
Proof.
  split; [reflexivity|].
  split; [reflexivity|].
  split; [reflexivity|].
  split; [by vm_compute|].
  split; [apply (bool_decide_unpack _); by vm_compute|].
  split; [apply (bool_decide_unpack _); by vm_compute|].
  split; [apply (bool_decide_unpack _); by vm_compute|].
  by vm_compute.
Qed.

(** C3.  For a count [n >= 0]: [draw_cards(n)] returns [n] cards and leaves
    [n] fewer when the deck holds at least [n]; otherwise it returns as many
    cards as the deck held and leaves it empty.  The cards come in draw
    order: position [i] of the result is the card that was [i] places from
    the end of the deck, so position 0 is its last card.  The model has no
    raising path: the call returns on every input. *)
Theorem C3_draw_cards (d : TarotDeck) (n : Z) :
  (0 ≤ n)%Z →
  let drawn := (draw_cards n d).1 in
  let d' := (draw_cards n d).2 in
  ((n ≤ Z.of_nat (remaining_cards d))%Z →
     Z.of_nat (length drawn) = n ∧
     Z.of_nat (remaining_cards d') = (Z.of_nat (remaining_cards d) - n)%Z) ∧
  ((n > Z.of_nat (remaining_cards d))%Z →
     length drawn = remaining_cards d ∧ cards d' = []) ∧
  (∀ i, i < length drawn →
     drawn !! i = cards d !! (remaining_cards d - 1 - i)) ∧
  (0 < length drawn → drawn !! 0 = last (cards d)) ∧
  cards d' = take (remaining_cards d - length drawn) (cards d).
Proof.
  intros Hn drawn d'.
  pose proof (draw_cards_length n d) as Hlen.
  pose proof (draw_cards_remaining n d) as Hrem.
  fold drawn in Hlen. fold d' in Hrem.
  assert (Horder : ∀ i, i < length drawn →
            drawn !! i = cards d !! (remaining_cards d - 1 - i)).
  { intros i Hi. subst drawn. destruct d as [cs]. unfold remaining_cards in *.
    rewrite draw_cards_spec in *. simpl in *.
    rewrite length_reverse in Hi. rewrite reverse_lookup by done.
    rewrite length_drop in *. rewrite lookup_drop. f_equal. lia. }
  split; [intros Hle; split; lia|].
  split.
  { intros Hgt. split; [lia|].
    unfold remaining_cards in *. apply nil_length_inv. lia. }
  split; [done|].
  split.
  { intros Hpos. rewrite Horder by done. rewrite last_lookup.
    unfold remaining_cards. f_equal. lia. }
  subst drawn d'. destruct d as [cs]. unfold remaining_cards.
  rewrite draw_cards_spec. simpl. rewrite length_reverse, length_drop.
  f_equal. lia.
Qed.

Lemma C3_draw_cards_witness :
  (0 ≤ 5)%Z ∧ (5 ≤ Z.of_nat (remaining_cards new_deck))%Z ∧
  let drawn := (draw_cards 5 new_deck).1 in
  let d' := (draw_cards 5 new_deck).2 in
  Z.of_nat (length drawn) = 5%Z ∧
  Z.of_nat (remaining_cards d') = (Z.of_nat (remaining_cards new_deck) - 5)%Z.
Proof.
  assert (H0 : (0 ≤ 5)%Z) by lia.
  assert (H5 : (5 ≤ Z.of_nat (remaining_cards new_deck))%Z)
    by (vm_compute; discriminate).
  split; [exact H0|]. split; [exact H5|].
  exact (proj1 (C3_draw_cards new_deck 5 H0) H5).
Defined.

(** C10.  For a count [n <= 0], [draw_cards(n)] returns the empty list and
    the deck is exactly as it was. *)
Theorem C10_draw_cards_nonpositive (d : TarotDeck) (n : Z) :
  (n ≤ 0)%Z → draw_cards n d = ([], d).
Proof.
  intros Hn. unfold draw_cards.
  replace (Z.to_nat _) with 0 by lia. reflexivity.
Qed.

Lemma C10_draw_cards_nonpositive_witness :
  (-2 ≤ 0)%Z ∧ draw_cards (-2) new_deck = ([], new_deck).
Proof.
  assert (H : (-2 ≤ 0)%Z) by lia.
  split; [exact H|]. exact (C10_draw_cards_nonpositive new_deck (-2) H).
Defined.

(** C5.  Whatever the random choices are, [shuffle()] permutes the deck:
    the cards after it, read by name and description, are the cards before
    it in some order, none added or removed, and as many remain.  The image
    reference goes with its card too; only the order and the [reversed]
    flags can differ. *)
Theorem C5_shuffle_permutes (d : TarotDeck) (g : Random.state) :
  let d' := (shuffle d g).1 in
  map (λ c, (name c, description c)) (cards d')
    ≡ₚ map (λ c, (name c, description c)) (cards d) ∧
  remaining_cards d' = remaining_cards d ∧
  map face (cards d') ≡ₚ map face (cards d).
Proof.
  intros d'. pose proof (shuffle_faces d g) as Hf. fold d' in Hf.
  split; [|split; [apply shuffle_remaining|done]].
  apply (fmap_Permutation fst) in Hf.
  rewrite <- !list_fmap_compose in Hf. exact Hf.
Qed.

(** ** The session *)

(** C9.  A three-card or Celtic Cross reading asked of a deck that holds
    some cards, but fewer than the spread needs, returns the error value and
    has by then drawn every card out: the deck is left empty. *)
Theorem C9_failed_reading_empties_deck (self : TarotReading) (g : Random.state) :
  1 ≤ remaining_cards (deck self) →
  (remaining_cards (deck self) < 3 →
     let r := (three_card_reading self g).1 in
     r.1 = Ok (error_result "Not enough cards available") ∧
     remaining_cards (deck r.2) = 0 ∧ cards (deck r.2) = []) ∧
  (remaining_cards (deck self) < 10 →
     let r := (celtic_cross_reading self g).1 in
     r.1 = Ok (error_result "Not enough cards for Celtic Cross reading") ∧
     remaining_cards (deck r.2) = 0 ∧ cards (deck r.2) = []).
Proof.
  intros _. split; intros Hlt r; subst r.
  - rewrite three_card_is_spread, spread_short by done. done.
  - rewrite celtic_cross_is_spread, spread_short by done. done.
Qed.

Lemma C9_failed_reading_empties_deck_witness :
  1 ≤ remaining_cards (deck two_left) ∧
  remaining_cards (deck two_left) < 3 ∧
  let r := (three_card_reading two_left demo_rng).1 in
  r.1 = Ok (error_result "Not enough cards available") ∧
  remaining_cards (deck r.2) = 0 ∧ cards (deck r.2) = [].
Proof.
  assert (H1 : 1 ≤ remaining_cards (deck two_left)) by (vm_compute; lia).
  assert (H3 : remaining_cards (deck two_left) < 3) by (vm_compute; lia).
  split; [exact H1|]. split; [exact H3|].
  exact (proj1 (C9_failed_reading_empties_deck two_left demo_rng H1) H3).
Defined.

(** C1, as the code has it.  Each reading returns an error value, not an
    exception, when the deck holds fewer cards than it draws.  The message
    is "Not enough cards for Celtic Cross reading" for the Celtic Cross,
    "Not enough cards available" for the three-card reading, and
    "No cards available" for the single-card reading. *)
Theorem C1_insufficient_cards_error (self : TarotReading) (g : Random.state) :
  (remaining_cards (deck self) < 1 →
     (single_card_reading self g).1.1 = Ok (error_result "No cards available")) ∧
  (remaining_cards (deck self) < 3 →
     (three_card_reading self g).1.1 = Ok (error_result "Not enough cards available")) ∧
  (remaining_cards (deck self) < 10 →
     (celtic_cross_reading self g).1.1 =
       Ok (error_result "Not enough cards for Celtic Cross reading")).
Proof.
  split; [|split]; intros Hlt.
  - rewrite single_card_empty by lia. done.
  - rewrite three_card_is_spread, spread_short by done. done.
  - rewrite celtic_cross_is_spread, spread_short by done. done.
Qed.

Lemma C1_insufficient_cards_error_witness :
  remaining_cards (deck none_left) < 1 ∧
  remaining_cards (deck two_left) < 3 ∧
  remaining_cards (deck five_left) < 10 ∧
  (single_card_reading none_left demo_rng).1.1 =
    Ok (error_result "No cards available") ∧
  (three_card_reading two_left demo_rng).1.1 =
    Ok (error_result "Not enough cards available") ∧
  (celtic_cross_reading five_left demo_rng).1.1 =
    Ok (error_result "Not enough cards for Celtic Cross reading").
Proof.
  assert (H1 : remaining_cards (deck none_left) < 1) by (vm_compute; lia).
  assert (H3 : remaining_cards (deck two_left) < 3) by (vm_compute; lia).
  assert (H10 : remaining_cards (deck five_left) < 10) by (vm_compute; lia).
  repeat (split; [assumption|]).
  split; [|split].
  - exact (proj1 (C1_insufficient_cards_error none_left demo_rng) H1).
  - exact (proj1 (proj2 (C1_insufficient_cards_error two_left demo_rng)) H3).
  - exact (proj2 (proj2 (C1_insufficient_cards_error five_left demo_rng)) H10).
Defined.

(** C1, as written, fails for the single-card reading: with no card left
    it returns the message "No cards available", which is not
    "Not enough cards available". *)
Lemma C1_single_card_message_counterexample :
  remaining_cards (deck none_left) < 1 ∧
  (single_card_reading none_left demo_rng).1.1 =
    Ok (error_result "No cards available") ∧
  (single_card_reading none_left demo_rng).1.1 ≠
    Ok (error_result "Not enough cards available").
Proof.
  split; [vm_compute; lia|].
  split; [by vm_compute|].
  vm_compute. discriminate.
Qed.

(** C4.  Each reading returns a value; when the value is an error the
    history is as it was, and otherwise the history has grown by exactly
    that value, as its last element.  In particular a Celtic Cross asked of
    a deck with five cards left returns its error and leaves the history at
    its length. *)
Theorem C4_history_only_on_success (self : TarotReading) (g : Random.state) :
  history_rule (readings_history self) (single_card_reading self g).1 ∧
  history_rule (readings_history self) (three_card_reading self g).1 ∧
  history_rule (readings_history self) (celtic_cross_reading self g).1 ∧
  (remaining_cards (deck self) = 5 →
     let c := (celtic_cross_reading self g).1 in
     c.1 = Ok (error_result "Not enough cards for Celtic Cross reading") ∧
     readings_history c.2 = readings_history self ∧
     length (readings_history c.2) = length (readings_history self)).
Proof.
  assert (Hspread : ∀ count message type positions,
            count = length positions →
            history_rule (readings_history self)
              (spread_reading count message type positions self g).1).
  { intros count message type positions Hpos.
    destruct (decide (remaining_cards (deck self) < count)) as [Hlt|Hge].
    - rewrite spread_short by done. by eexists.
    - destruct (spread_enough count message type positions self g Hpos)
        as (_ & _ & ->); [lia|]. by eexists. }
  split; [|split; [|split]].
  - destruct (decide (remaining_cards (deck self) = 0)) as [H0|H1].
    + rewrite single_card_empty by done. by eexists.
    + destruct (single_card_enough self g) as (card & rest & _ & ->); [lia|].
      by eexists.
  - rewrite three_card_is_spread. by apply Hspread.
  - rewrite celtic_cross_is_spread. by apply Hspread.
  - intros H5 c. subst c.
    rewrite celtic_cross_is_spread, spread_short by lia. done.
Qed.

Lemma C4_history_only_on_success_witness :
  remaining_cards (deck five_left) = 5 ∧
  let c := (celtic_cross_reading five_left demo_rng).1 in
  c.1 = Ok (error_result "Not enough cards for Celtic Cross reading") ∧
  readings_history c.2 = readings_history five_left ∧
  length (readings_history c.2) = length (readings_history five_left).
Proof.
  assert (H5 : remaining_cards (deck five_left) = 5) by (by vm_compute).
  split; [exact H5|].
  exact (proj2 (proj2 (proj2 (C4_history_only_on_success five_left demo_rng))) H5).
Defined.

(** C6.  A successful three-card result carries the three drawn cards in
    draw order and, as its interpretation, the three lines
    "Past: ...", "Present: ...", "Future: ..." joined by a newline, each
    made of the position, a colon and a space, and the meaning of the card
    at that position.  The meaning of a card is
    "{name} (Reversed): {description} - Consider the opposite or blocked
    energy." when it is reversed and "{name}: {description}" when it is not.
    So "Past:", "Present:" and "Future:" occur in the interpretation, in
    that order. *)
Theorem C6_three_card_interpretation
    (self : TarotReading) (g : Random.state) (r : pyval) :
  (three_card_reading self g).1.1 = Ok r →
  is_error r = false →
  ∃ c1 c2 c3 interpretation,
    (draw_cards 3 (shuffle (deck self) g).1).1 = [c1; c2; c3] ∧
    r = reading_result "Three Card (Past, Present, Future)" [c1; c2; c3]
          interpretation ∧
    py_lookup "cards" r = Some (PList [to_dict c1; to_dict c2; to_dict c3]) ∧
    py_lookup "interpretation" r = Some (PStr interpretation) ∧
    interpretation =
      join newline [ "Past: " +:+ get_meaning c1;
                     "Present: " +:+ get_meaning c2;
                     "Future: " +:+ get_meaning c3 ] ∧
    (∀ c, get_meaning c =
       if truthy (reversed c) then
         py_str (name c) +:+ " (Reversed): " +:+ py_str (description c)
           +:+ " - Consider the opposite or blocked energy."
       else py_str (name c) +:+ ": " +:+ py_str (description c)) ∧
    ∃ s1 s2 s3,
      interpretation =
        "Past:" +:+ s1 +:+ "Present:" +:+ s2 +:+ "Future:" +:+ s3.
Proof.
  intros Hr Hok. rewrite three_card_is_spread in Hr.
  destruct (decide (remaining_cards (deck self) < 3)) as [Hlt|Hge].
  { rewrite spread_short in Hr by done. simpl in Hr.
    injection Hr as <-. discriminate Hok. }
  destruct (spread_enough 3 "Not enough cards available"
              "Three Card (Past, Present, Future)" three_card_positions
              self g eq_refl) as (Hlen & _ & Heq); [lia|].
  rewrite Heq in Hr. simpl in Hr. injection Hr as <-. clear Heq.
  change (Z.of_nat 3) with 3%Z in *.
  destruct (draw_cards 3 (shuffle (deck self) g).1).1
    as [|c1 [|c2 [|c3 [|c4 rest]]]]; try discriminate Hlen.
  exists c1, c2, c3. eexists.
  split; [done|]. split; [done|]. split; [done|]. split; [done|].
  split; [done|]. split; [done|].
  exists (" " +:+ get_meaning c1 +:+ newline),
         (" " +:+ get_meaning c2 +:+ newline),
         (" " +:+ get_meaning c3).
  unfold position_line. simpl.
  by rewrite !string_app_assoc.
Qed.

Lemma C6_three_card_interpretation_witness :
  ∃ r,
    (three_card_reading new_reading demo_rng).1.1 = Ok r ∧
    is_error r = false ∧
    py_lookup "interpretation" r =
      Some (PStr (join newline
        [ "Past: The Empress: Femininity, beauty, nature, abundance";
          "Present: Wheel of Fortune (Reversed): Good luck, karma, life cycles, destiny - Consider the opposite or blocked energy.";
          "Future: The Star: Hope, faith, purpose, renewal, spirituality" ])).
Proof.
  assert (Hrun : ∃ r, (three_card_reading new_reading demo_rng).1.1 = Ok r ∧
                      is_error r = false).
  { eexists. split; by vm_compute. }
  destruct Hrun as (r & Hr & Hok). exists r.
  split; [exact Hr|]. split; [exact Hok|].
  destruct (C6_three_card_interpretation new_reading demo_rng r Hr Hok)
    as (c1 & c2 & c3 & interpretation & Hdraw & _ & _ & -> & -> & _).
  revert Hdraw. vm_compute. intros [= <- <- <-]. reflexivity.
Defined.

(** C8.  [from_dict] fails exactly when the key "name" or the key
    "description" is missing, with the [KeyError] of the first missing one
    (the code's form of a malformed snapshot).  With both present it returns
    a card whose [image_file] is the mapping's, or [None] when the key is
    missing, and whose [reversed] is the mapping's, or [False] when the key
    is missing. *)
Theorem C8_from_dict (data : gmap string pyatom) :
  ((∃ e, from_dict data = Raise e) ↔
     data !! "name" = None ∨ data !! "description" = None) ∧
  (data !! "name" = None → from_dict data = Raise (KeyError "name")) ∧
  (is_Some (data !! "name") → data !! "description" = None →
     from_dict data = Raise (KeyError "description")) ∧
  (∀ n d, data !! "name" = Some n → data !! "description" = Some d →
     from_dict data =
       Ok (mkCard n d (default ANone (data !! "image_file"))
                      (default (ABool false) (data !! "reversed")))).
Proof.
  unfold from_dict, getitem, dict_get.
  destruct (data !! "name") as [n|] eqn:Hn;
    destruct (data !! "description") as [d|] eqn:Hd;
    destruct (data !! "image_file") as [i|] eqn:Hi;
    destruct (data !! "reversed") as [r|] eqn:Hrv; simpl;
    (split; [split; [intros [e He]; try discriminate He; eauto
                    |intros [?|?]; try discriminate; eauto]|]);
    (split; [intros ?; try discriminate; done|]);
    (split; [intros [? ?] ?; try discriminate; done|]);
    intros ? ? ? ?; by simplify_eq.
Qed.

Lemma C8_from_dict_witness :
  star_snapshot !! "name" = Some (AStr "The Star") ∧
  star_snapshot !! "description" = Some (AStr "Hope and guidance") ∧
  from_dict star_snapshot =
    Ok (mkCard (AStr "The Star") (AStr "Hope and guidance") ANone (ABool false)).
Proof.
  assert (Hn : star_snapshot !! "name" = Some (AStr "The Star")) by done.
  assert (Hd : star_snapshot !! "description" = Some (AStr "Hope and guidance"))
    by done.
  split; [exact Hn|]. split; [exact Hd|].
  exact (proj2 (proj2 (proj2 (C8_from_dict star_snapshot))) _ _ Hn Hd).
Defined.

(** ** Persistence *)

(** C7.  For a reading result [R] (a type, the snapshots of its cards in
    order, an interpretation) and a path at which [save_reading] returns
    true, a [load_reading] of that path right after returns a dictionary
    equal to [R]: the same type, the same card snapshots in the same order
    with the same four fields each, and the same interpretation. *)
Theorem C7_save_load_roundtrip
    (fs fs' : FileSystem) (path type interpretation : string)
    (cs : list TarotCard) :
  let R := reading_result type cs interpretation in
  save_reading fs path R = (true, fs') →
  ∃ loaded,
    load_reading fs' path = Some loaded ∧
    loaded = R ∧
    py_lookup "type" loaded = Some (PStr type) ∧
    py_lookup "cards" loaded = Some (PList (map to_dict cs)) ∧
    py_lookup "interpretation" loaded = Some (PStr interpretation) ∧
    Forall2 (λ snapshot c,
               py_lookup "name" snapshot = Some (of_atom (name c)) ∧
               py_lookup "description" snapshot = Some (of_atom (description c)) ∧
               py_lookup "image_file" snapshot = Some (of_atom (image_file c)) ∧
               py_lookup "reversed" snapshot = Some (of_atom (reversed c)))
            (map to_dict cs) cs.
Proof.
  intros R Hsave. exists R.
  split.
  { eapply save_then_load; [|exact Hsave].
    apply unique_keys_reading_result. }
  repeat (split; [reflexivity|]).
  clear. induction cs as [|c cs IH]; constructor; [|exact IH].
  by repeat split.
Qed.

Lemma C7_save_load_roundtrip_witness :
  let R := reading_result "Three Card (Past, Present, Future)" demo_cards
             "Past: a" in
  let fs' := (save_reading empty_fs "reading.rdg" R).2 in
  save_reading empty_fs "reading.rdg" R = (true, fs') ∧
  ∃ loaded, load_reading fs' "reading.rdg" = Some loaded ∧ loaded = R.
Proof.
  intros R fs'.
  assert (Hsave : save_reading empty_fs "reading.rdg" R = (true, fs'))
    by reflexivity.
  split; [exact Hsave|].
  destruct (C7_save_load_roundtrip empty_fs fs' "reading.rdg"
              "Three Card (Past, Present, Future)" "Past: a" demo_cards Hsave)
    as (loaded & Hload & Heq & _).
  exists loaded. by split.
Defined.

(** * Further properties of the code *)

(** ** Cards *)

(** X1.  [flip()] turns a card over: a card that was upright is reversed
    and the other way round, whatever its [reversed] attribute held.  Two
    flips give back the meaning of the card, and the card itself when
    [reversed] was a boolean. *)
Theorem X1_flip_twice (c : TarotCard) :
  truthy (reversed (flip c)) = negb (truthy (reversed c)) ∧
  get_meaning (flip (flip c)) = get_meaning c ∧
  face (flip (flip c)) = face c ∧
  (∀ b, reversed c = ABool b → flip (flip c) = c).
Proof.
  split; [reflexivity|]. split.
  { unfold get_meaning. simpl. by rewrite negb_involutive. }
  split; [reflexivity|].
  intros b Hb. destruct c as [n d i r]. simpl in Hb. subst r.
  unfold flip. simpl. by rewrite negb_involutive.
Qed.

Lemma X1_flip_twice_witness :
  reversed (new_card "The Fool" "New beginnings") = ABool false ∧
  flip (flip (new_card "The Fool" "New beginnings"))
    = new_card "The Fool" "New beginnings".
Proof.
  assert (H : reversed (new_card "The Fool" "New beginnings") = ABool false)
    by reflexivity.
  split; [exact H|].
  exact (proj2 (proj2 (proj2 (X1_flip_twice _))) false H).
Defined.

Lemma atom_of_of_atom a : atom_of (of_atom a) = Some a.
Proof. by destruct a. Qed.

(** X2.  A card written with [to_dict()] and read with [from_dict()] is the
    same card: all four attributes come back. *)
Theorem X2_to_dict_from_dict (c : TarotCard) :
  ∃ data, mapping_of (to_dict c) = Some data ∧ from_dict data = Ok c.
Proof.
  destruct c as [n d i r]. unfold to_dict, mapping_of. cbn [mapM].
  simpl. rewrite !atom_of_of_atom. simpl.
  eexists. split; [reflexivity|].
  unfold from_dict, getitem, dict_get. by simplify_map_eq.
Qed.

Lemma get_meaning_length c :
  String.length (get_meaning c) =
    String.length (py_str (name c)) + String.length (py_str (description c))
      + (if truthy (reversed c) then 56 else 2).
Proof.
  unfold get_meaning. destruct (truthy (reversed c));
    rewrite !string_length_app; simpl; lia.
Qed.

(** X3.  The meaning tells the orientation: two cards with the same name
    and description have the same meaning exactly when they are both
    reversed or both upright.  In particular a flip always changes the
    meaning. *)
Theorem X3_meaning_tells_orientation (c1 c2 : TarotCard) :
  name c1 = name c2 → description c1 = description c2 →
  (get_meaning c1 = get_meaning c2 ↔
     truthy (reversed c1) = truthy (reversed c2)).
Proof.
  intros Hn Hd. split.
  - intros H. apply (f_equal String.length) in H.
    rewrite !get_meaning_length, Hn, Hd in H.
    destruct (truthy (reversed c1)), (truthy (reversed c2)); auto; lia.
  - intros H. unfold get_meaning. by rewrite Hn, Hd, H.
Qed.

Lemma X3_meaning_tells_orientation_witness :
  let c := new_card "The Fool" "New beginnings" in
  name c = name (flip c) ∧ description c = description (flip c) ∧
  get_meaning c ≠ get_meaning (flip c).
Proof.
  intros c.
  assert (Hn : name c = name (flip c)) by reflexivity.
  assert (Hd : description c = description (flip c)) by reflexivity.
  split; [exact Hn|]. split; [exact Hd|].
  intros H.
  apply (proj1 (X3_meaning_tells_orientation c (flip c) Hn Hd)) in H.
  discriminate H.
Defined.

(** ** The deck *)

Lemma draw_cards_conserves (d : TarotDeck) (n : Z) :
  cards d = cards (draw_cards n d).2 ++ reverse (draw_cards n d).1.
Proof.
  destruct d as [cs]. rewrite draw_cards_spec. simpl.
  by rewrite reverse_involutive, take_drop.
Qed.

(** X4.  Drawing neither loses nor invents a card: the deck before
    [draw_cards(n)] is the deck after it followed by the drawn cards, last
    drawn first; so the cards drawn and the cards left are, together, the
    cards there were. *)
Theorem X4_draw_cards_conserves (d : TarotDeck) (n : Z) :
  cards d = cards (draw_cards n d).2 ++ reverse (draw_cards n d).1 ∧
  (draw_cards n d).1 ++ cards (draw_cards n d).2 ≡ₚ cards d.
Proof.
  split; [apply draw_cards_conserves|].
  destruct d as [cs]. rewrite draw_cards_spec. simpl.
  by rewrite reverse_Permutation, Permutation_app_comm, take_drop.
Qed.

Lemma drop_take_drop {A} (l : list A) m n :
  m ≤ n → n ≤ length l → drop m (take n l) ++ drop n l = drop m l.
Proof.
  intros Hmn Hn. rewrite <- (take_drop n l) at 3.
  rewrite drop_app_le; [done|]. rewrite length_take. lia.
Qed.

(** X5.  Two draws in a row are one draw of the sum: for [a, b >= 0],
    [draw_cards(a)] followed by [draw_cards(b)] returns, put together, what
    [draw_cards(a + b)] returns, and leaves the same deck. *)
Theorem X5_draw_cards_twice (d : TarotDeck) (a b : Z) :
  (0 ≤ a)%Z → (0 ≤ b)%Z →
  let first := draw_cards a d in
  let second := draw_cards b first.2 in
  draw_cards (a + b) d = (first.1 ++ second.1, second.2).
Proof.
  intros Ha Hb. destruct d as [cs]. simpl.
  rewrite !draw_cards_spec. simpl. rewrite draw_cards_spec. simpl.
  rewrite !length_take.
  set (len := length cs).
  set (la := Z.to_nat (Z.min a (Z.of_nat len))).
  assert (Hla : la ≤ len) by (subst la; lia).
  replace ((len - la) `min` len) with (len - la) by lia.
  set (lb := Z.to_nat (Z.min b (Z.of_nat (len - la)))).
  assert (Hlb : lb ≤ len - la) by (subst lb; lia).
  replace (Z.to_nat (Z.min (a + b) (Z.of_nat len))) with (la + lb)
    by (subst la lb; lia).
  replace (len - la - lb) with (len - (la + lb)) by lia.
  f_equal.
  - rewrite <- reverse_app. f_equal.
    rewrite drop_take_drop; [done|lia|subst len; lia].
  - f_equal. rewrite take_take. f_equal. lia.
Qed.

Lemma X5_draw_cards_twice_witness :
  (0 ≤ 3)%Z ∧ (0 ≤ 10)%Z ∧
  draw_cards (3 + 10) new_deck =
    ((draw_cards 3 new_deck).1 ++ (draw_cards 10 (draw_cards 3 new_deck).2).1,
     (draw_cards 10 (draw_cards 3 new_deck).2).2).
Proof.
  assert (H3 : (0 ≤ 3)%Z) by lia. assert (H10 : (0 ≤ 10)%Z) by lia.
  split; [exact H3|]. split; [exact H10|].
  exact (X5_draw_cards_twice new_deck 3 10 H3 H10).
Defined.

(** X6.  [draw_cards(1)] is [draw_card()]: the card it returns, alone in a
    list, or the empty list when [draw_card()] returns [None]; the deck
    after is the same. *)
Theorem X6_draw_cards_one (d : TarotDeck) :
  draw_cards 1 d =
    match draw_card d with
    | (Some c, d') => ([c], d')
    | (None, d') => ([], d')
    end.
Proof.
  destruct d as [cs]. destruct cs as [|c cs _] using rev_ind; [done|].
  unfold draw_cards. simpl. rewrite length_app. simpl.
  replace (Z.to_nat _) with 1 by lia. simpl.
  by rewrite draw_card_snoc.
Qed.

(** X7.  A deck that was asked for at least as many cards as it held is
    empty and stays so: [draw_card()] returns [None] and [draw_cards(m)]
    returns no card, however often they are called. *)
Theorem X7_exhausted_deck (d : TarotDeck) (n : Z) :
  (Z.of_nat (remaining_cards d) ≤ n)%Z →
  let d' := (draw_cards n d).2 in
  d' = mkDeck [] ∧
  draw_card d' = (None, d') ∧
  ∀ m, draw_cards m d' = ([], d').
Proof.
  intros Hn d'. assert (Hd' : d' = mkDeck []).
  { subst d'. destruct d as [cs]. unfold remaining_cards in Hn. simpl in Hn.
    rewrite draw_cards_spec. simpl. f_equal.
    apply nil_length_inv. rewrite length_take. lia. }
  rewrite Hd'. split; [done|]. split; [done|].
  intros m. unfold draw_cards. simpl.
  replace (Z.to_nat _) with 0 by lia. done.
Qed.

Lemma X7_exhausted_deck_witness :
  (Z.of_nat (remaining_cards new_deck) ≤ 80)%Z ∧
  draw_card (draw_cards 80 new_deck).2 = (None, (draw_cards 80 new_deck).2).
Proof.
  assert (H : (Z.of_nat (remaining_cards new_deck) ≤ 80)%Z)
    by (vm_compute; discriminate).
  split; [exact H|].
  exact (proj1 (proj2 (X7_exhausted_deck new_deck 80 H))).
Defined.

(** X8.  A deck of at most one card keeps it in place under [shuffle()];
    only its orientation can change. *)
Theorem X8_shuffle_small_deck (d : TarotDeck) (g : Random.state) :
  remaining_cards d ≤ 1 →
  map face (cards (shuffle d g).1) = map face (cards d).
Proof.
  intros Hlen. destruct d as [cs]. unfold remaining_cards in Hlen.
  simpl in Hlen. unfold shuffle, Random.bind, random_shuffle. simpl.
  replace (length cs - 1) with 0 by lia. simpl.
  pose proof (flip_some_faces cs g) as Hf.
  destruct (flip_some cs g) as [cs' g']. exact Hf.
Qed.

Lemma X8_shuffle_small_deck_witness :
  let d := (draw_cards 77 new_deck).2 in
  remaining_cards d ≤ 1 ∧
  map face (cards (shuffle d demo_rng).1) = map face (cards d).
Proof.
  intros d.
  assert (H : remaining_cards d ≤ 1) by (vm_compute; lia).
  split; [exact H|]. exact (X8_shuffle_small_deck d demo_rng H).
Defined.

(** *** What every sequence of operations keeps *)

Lemma submseteq_NoDup {A} (l1 l2 : list A) : l1 ⊆+ l2 → NoDup l2 → NoDup l1.
Proof.
  intros [k Hk]%submseteq_Permutation Hnd. rewrite Hk in Hnd.
  by apply NoDup_app in Hnd as [? _].
Qed.

Lemma flip_some_bool cs : ∀ g,
  Forall (λ c, ∃ b, reversed c = ABool b) cs →
  Forall (λ c, ∃ b, reversed c = ABool b) (flip_some cs g).1.
Proof.
  induction cs as [|c cs IH]; intros g Hall; [done|].
  apply Forall_cons in Hall as [Hc Hall].
  simpl. unfold Random.bind, random_choice, Random.randbelow, Random.ret.
  simpl. specialize (IH (λ k, g (S k)) Hall).
  destruct (flip_some cs _) as [rest' g']. simpl in *.
  constructor; [|done].
  match goal with |- context [if ?b then flip c else c] => destruct b end;
    [by eexists|done].
Qed.

Lemma shuffle_bool d g :
  Forall (λ c, ∃ b, reversed c = ABool b) (cards d) →
  Forall (λ c, ∃ b, reversed c = ABool b) (cards (shuffle d g).1).
Proof.
  intros Hall. unfold shuffle, Random.bind.
  pose proof (random_shuffle_Permutation (cards d) g) as Hp.
  destruct (random_shuffle (cards d) g) as [cs g1]. simpl in Hp.
  rewrite <- Hp in Hall.
  pose proof (flip_some_bool cs g1 Hall) as Hb.
  by destruct (flip_some cs g1) as [cs' g2].
Qed.

Lemma draw_card_cards d :
  cards (draw_card d).2 = take (length (cards d) - 1) (cards d).
Proof.
  destruct d as [cs]. destruct cs as [|c cs _] using rev_ind; [done|].
  rewrite draw_card_snoc. simpl. rewrite length_app. simpl.
  replace (length cs + 1 - 1) with (length cs) by lia.
  by rewrite take_app_length.
Qed.

Lemma draw_cards_cards n d :
  ∃ k, cards (draw_cards n d).2 = take k (cards d).
Proof. destruct d as [cs]. rewrite draw_cards_spec. by eexists. Qed.

(** X10.  Whatever sequence of [shuffle()], [draw_card()], [draw_cards(n)]
    and [reset()] is run on a new deck, the deck holds cards of the new
    deck, each at most once (by name, description and image reference): no
    name occurs twice, there are at most 78 cards, and every [reversed]
    attribute is a boolean. *)
Theorem X10_deck_invariant (ops : list deck_op) :
  let d := run_deck ops in
  map face (cards d) ⊆+ map face (cards new_deck) ∧
  NoDup (map name (cards d)) ∧
  remaining_cards d ≤ 78 ∧
  Forall (λ c, ∃ b, reversed c = ABool b) (cards d).
Proof.
  intros d.
  assert (Hinv : map face (cards d) ⊆+ map face (cards new_deck) ∧
                 Forall (λ c, ∃ b, reversed c = ABool b) (cards d)).
  { subst d. unfold run_deck.
    induction ops as [|op ops IH] using rev_ind.
    - split; [done|]. apply (bool_decide_unpack _). by vm_compute.
    - rewrite foldl_app. simpl.
      destruct IH as [Hsub Hbool].
      set (d := foldl apply_deck_op new_deck ops) in *.
      destruct op as [g| |n|]; simpl.
      + split; [by rewrite shuffle_faces|by apply shuffle_bool].
      + rewrite draw_card_cards. split.
        * etrans; [|exact Hsub]. apply fmap_submseteq, submseteq_take.
        * by apply Forall_take.
      + destruct (draw_cards_cards n d) as [k ->]. split.
        * etrans; [|exact Hsub]. apply fmap_submseteq, submseteq_take.
        * by apply Forall_take.
      + split; [done|]. apply (bool_decide_unpack _). by vm_compute. }
  destruct Hinv as [Hsub Hbool].
  split; [done|]. split; [|split; [|done]].
  - assert (Hnames : map name (cards d) ⊆+ map name (cards new_deck)).
    { apply (fmap_submseteq (λ f : pyatom * pyatom * pyatom, f.1.1)) in Hsub.
      by rewrite <- !list_fmap_compose in Hsub. }
    eapply submseteq_NoDup; [exact Hnames|].
    apply (bool_decide_unpack _). by vm_compute.
  - apply submseteq_length in Hsub. rewrite !length_map in Hsub.
    exact Hsub.
Qed.

(** ** What [shuffle()] can produce *)

Lemma randbelow_prepend n j l g :
  j < n → Random.randbelow n (prepend (j :: l) g) = (j, prepend l g).
Proof.
  intros Hj. unfold Random.randbelow. cbn [prepend].
  by rewrite Nat.mod_small.
Qed.

Section Reach.
Context {A : Type}.
Implicit Types x target : list A.

Lemma swap_lookup_i x i j xi xj :
  x !! i = Some xi → x !! j = Some xj → swap x i j !! i = Some xj.
Proof.
  intros Hi Hj. unfold swap. rewrite Hi, Hj.
  destruct (decide (i = j)) as [->|Hne].
  - rewrite list_lookup_insert_eq; [congruence|].
    rewrite length_insert. by eapply lookup_lt_Some.
  - rewrite list_lookup_insert_ne by done.
    rewrite list_lookup_insert_eq; [done|]. by eapply lookup_lt_Some.
Qed.

Lemma swap_lookup_other x i j k :
  k ≠ i → k ≠ j → swap x i j !! k = x !! k.
Proof.
  intros Hi Hj. unfold swap.
  destruct (x !! i) as [xi|]; [|done]. destruct (x !! j) as [xj|]; [|done].
  by rewrite !list_lookup_insert_ne.
Qed.

(** The Fisher-Yates loop reaches every arrangement that leaves the
    positions above [i] alone. *)
Lemma shuffle_from_reach i : ∀ x target,
  i ≤ length x - 1 →
  target ≡ₚ x →
  drop (S i) target = drop (S i) x →
  ∃ l, ∀ g, shuffle_from i x (prepend l g) = (target, g).
Proof.
  induction i as [|i IH]; intros x target Hi Hperm Hdrop.
  - exists []. intros g. simpl. unfold Random.ret. f_equal.
    destruct target as [|b t], x as [|a x'];
      try (by apply Permutation_length in Hperm).
    simpl in Hdrop. rewrite !drop_0 in Hdrop. subst t. f_equal.
    apply (Permutation_app_inv_r x' [b] [a]) in Hperm.
    by apply Permutation_singleton_inj in Hperm.
  - pose proof (Permutation_length Hperm) as Hlen.
    assert (Hlt : S i < length target) by lia.
    destruct (lookup_lt_is_Some_2 _ _ Hlt) as [y Hy].
    assert (Htake : take (S (S i)) target ≡ₚ take (S (S i)) x).
    { rewrite <- (take_drop (S (S i)) target), <- (take_drop (S (S i)) x) in Hperm.
      rewrite Hdrop in Hperm. by apply Permutation_app_inv_r in Hperm. }
    assert (Hin : y ∈ take (S (S i)) x).
    { rewrite <- Htake. apply list_elem_of_lookup. exists (S i).
      rewrite lookup_take_lt by lia. done. }
    apply list_elem_of_lookup in Hin as [j Hj].
    assert (Hjlt : j < S (S i)).
    { apply lookup_lt_Some in Hj. rewrite length_take in Hj. lia. }
    rewrite lookup_take_lt in Hj by done.
    assert (Hxi : is_Some (x !! S i)) by (apply lookup_lt_is_Some_2; lia).
    destruct Hxi as [xi Hxi].
    destruct (IH (swap x (S i) j) target) as [l Hl].
    + rewrite (Permutation_length (swap_Permutation x (S i) j)). lia.
    + by rewrite swap_Permutation.
    + apply list_eq. intros k. rewrite !lookup_drop.
      destruct k as [|k].
      * rewrite Nat.add_0_r, Hy. symmetry. by eapply swap_lookup_i.
      * rewrite swap_lookup_other by lia.
        replace (S i + S k) with (S (S i) + k) by lia.
        by rewrite <- !lookup_drop, Hdrop.
    + exists (j :: l). intros g. cbn [shuffle_from]. unfold Random.bind.
      rewrite randbelow_prepend by done. apply Hl.
Qed.

Lemma random_shuffle_reach x target :
  target ≡ₚ x → ∃ l, ∀ g, random_shuffle x (prepend l g) = (target, g).
Proof.
  intros Hperm. apply shuffle_from_reach; [done|done|].
  pose proof (Permutation_length Hperm).
  destruct x as [|a x].
  - apply Permutation_nil_r in Hperm. by subst.
  - simpl length. replace (S (S (length x) - 1)) with (length (a :: x))
      by (simpl; lia).
    rewrite drop_all. apply drop_ge. simpl in *. lia.
Qed.

End Reach.

Lemma flip_some_reach cs : ∀ turn,
  length turn = length cs →
  ∃ l, ∀ g, flip_some cs (prepend l g) = (turned turn cs, g).
Proof.
  induction cs as [|c cs IH]; intros [|b turn] Hlen; try discriminate Hlen.
  - by exists [].
  - destruct (IH turn) as [l Hl]; [by injection Hlen|].
    exists ((if b then 0 else 1) :: l). intros g.
    cbn [flip_some]. unfold Random.bind at 1. unfold random_choice.
    unfold Random.bind at 1. rewrite randbelow_prepend by (destruct b; simpl; lia).
    unfold Random.ret at 1. unfold Random.bind. rewrite Hl.
    unfold Random.ret. by destruct b.
Qed.



(** ** The session *)

(** What a reading does, in one statement for the three methods: with too
    few cards it returns an error, empties the deck and leaves the history;
    with enough it returns a reading of the cards it took from the end of
    the shuffled deck and appends it to the history. *)
Lemma run_reading_cases self op g :
  let run := run_reading self op g in
  (remaining_cards (deck self) < cards_needed op ∧
   (∃ message, run.1.1 = Ok (error_result message)) ∧
   run.1.2 = mkReading (mkDeck []) (readings_history self)) ∨
  (cards_needed op ≤ remaining_cards (deck self) ∧
   ∃ type cs interpretation,
     run.1.1 = Ok (reading_result type cs interpretation) ∧
     length cs = cards_needed op ∧
     readings_history run.1.2 =
       readings_history self ++ [reading_result type cs interpretation] ∧
     cards (shuffle (deck self) g).1 = cards (deck run.1.2) ++ reverse cs).
Proof.
  intros run. subst run.
  destruct (decide (remaining_cards (deck self) < cards_needed op))
    as [Hlt|Hge]; [left|right]; (split; [first [done|lia]|]).
  - destruct op; simpl in *.
    + rewrite single_card_empty by lia. eauto.
    + rewrite three_card_is_spread, spread_short by done. eauto.
    + rewrite celtic_cross_is_spread, spread_short by done. eauto.
  - assert (Hspread : ∀ count message type positions,
              count = length positions →
              count ≤ remaining_cards (deck self) →
              let run := spread_reading count message type positions self g in
              ∃ type cs interpretation,
                run.1.1 = Ok (reading_result type cs interpretation) ∧
                length cs = count ∧
                readings_history run.1.2 =
                  readings_history self
                    ++ [reading_result type cs interpretation] ∧
                cards (shuffle (deck self) g).1
                  = cards (deck run.1.2) ++ reverse cs).
    { intros count message type positions Hpos Hle run. subst run.
      destruct (spread_enough count message type positions self g Hpos Hle)
        as (Hlen & _ & ->).
      eexists _, _, _. split; [reflexivity|]. split; [exact Hlen|].
      split; [reflexivity|]. apply draw_cards_conserves. }
    destruct op; simpl in *.
    + destruct (single_card_enough self g) as (card & rest & Hcards & Heq);
        [lia|].
      cbv zeta in Heq. rewrite Heq. eexists _, [card], _.
      split; [reflexivity|]. split; [reflexivity|]. split; [reflexivity|].
      exact Hcards.
    + rewrite three_card_is_spread. apply Hspread; [done|lia].
    + rewrite celtic_cross_is_spread. apply Hspread; [done|lia].
Qed.

(** X11.  On a deck that holds a card, [single_card_reading()] never
    returns an error: it takes the last card of the shuffled deck and
    returns a result of type "Single Card" with that one card and the
    interpretation "Today's guidance: " followed by the card's meaning, with
    no position in front.  The result is appended to the history. *)
Theorem X11_single_card_success (self : TarotReading) (g : Random.state) :
  1 ≤ remaining_cards (deck self) →
  ∃ card rest,
    cards (shuffle (deck self) g).1 = rest ++ [card] ∧
    let reading :=
      PDict [ ("type", PStr "Single Card");
              ("cards", PList [to_dict card]);
              ("interpretation",
               PStr ("Today's guidance: " +:+ get_meaning card)) ] in
    (single_card_reading self g).1 =
      (Ok reading, mkReading (mkDeck rest) (readings_history self ++ [reading])) ∧
    is_error reading = false.
Proof.
  intros H1. destruct (single_card_enough self g H1)
    as (card & rest & Hcards & Heq).
  exists card, rest. split; [exact Hcards|]. cbv zeta in *.
  rewrite Heq. by split.
Qed.

Lemma X11_single_card_success_witness :
  1 ≤ remaining_cards (deck new_reading) ∧
  ∃ r, (single_card_reading new_reading demo_rng).1.1 = Ok r ∧
       is_error r = false.
Proof.
  assert (H : 1 ≤ remaining_cards (deck new_reading)) by (vm_compute; lia).
  split; [exact H|].
  destruct (X11_single_card_success new_reading demo_rng H)
    as (card & rest & _ & Heq & Hok).
  eexists. rewrite Heq. split; [reflexivity|exact Hok].
Defined.

(** X12.  On a deck that holds ten cards or more, [celtic_cross_reading()]
    returns a result of type "Celtic Cross" with the ten cards it drew, in
    draw order, and an interpretation of ten lines: line [i] is the [i]-th
    position name, a colon and a space, and the meaning of the [i]-th
    card. *)
Theorem X12_celtic_cross_success (self : TarotReading) (g : Random.state) :
  10 ≤ remaining_cards (deck self) →
  let cs := (draw_cards 10 (shuffle (deck self) g).1).1 in
  let lines := zip_with position_line celtic_cross_positions cs in
  length cs = 10 ∧
  length lines = 10 ∧
  (celtic_cross_reading self g).1.1 =
    Ok (PDict [ ("type", PStr "Celtic Cross");
                ("cards", PList (map to_dict cs));
                ("interpretation", PStr (join newline lines)) ]) ∧
  ∀ i position card,
    celtic_cross_positions !! i = Some position → cs !! i = Some card →
    lines !! i = Some (position +:+ ": " +:+ get_meaning card).
Proof.
  intros H10 cs lines.
  destruct (spread_enough 10 "Not enough cards for Celtic Cross reading"
              "Celtic Cross" celtic_cross_positions self g eq_refl H10)
    as (Hlen & _ & Heq).
  change (Z.of_nat 10) with 10%Z in *. fold cs in Hlen, Heq.
  split; [exact Hlen|]. split.
  { subst lines. rewrite length_zip_with. rewrite Hlen. reflexivity. }
  split.
  { rewrite celtic_cross_is_spread, Heq. reflexivity. }
  intros i position card Hp Hc. subst lines.
  rewrite lookup_zip_with, Hp. simpl. by rewrite Hc.
Qed.

Lemma X12_celtic_cross_success_witness :
  10 ≤ remaining_cards (deck new_reading) ∧
  length (draw_cards 10 (shuffle (deck new_reading) demo_rng).1).1 = 10.
Proof.
  assert (H : 10 ≤ remaining_cards (deck new_reading)) by (vm_compute; lia).
  split; [exact H|].
  exact (proj1 (X12_celtic_cross_success new_reading demo_rng H)).
Defined.

(** X13.  A reading asked of a deck that holds enough cards succeeds and
    costs the deck exactly the cards of its spread: one, three or ten.  The
    result carries that many card snapshots. *)
Theorem X13_reading_takes_its_cards
    (self : TarotReading) (op : reading_op) (g : Random.state) :
  cards_needed op ≤ remaining_cards (deck self) →
  let run := run_reading self op g in
  ∃ r snapshots,
    run.1.1 = Ok r ∧ is_error r = false ∧
    py_lookup "cards" r = Some (PList snapshots) ∧
    length snapshots = cards_needed op ∧
    remaining_cards (deck run.1.2) + cards_needed op
      = remaining_cards (deck self).
Proof.
  intros Hle run.
  destruct (run_reading_cases self op g)
    as [(Hlt & _)|(_ & type & cs & interp & Hr & Hlen & _ & Hcards)]; [lia|].
  fold run in Hr, Hcards. exists (reading_result type cs interp), (map to_dict cs).
  split; [exact Hr|]. split; [reflexivity|]. split; [reflexivity|].
  split; [by rewrite length_map|].
  pose proof (shuffle_remaining (deck self) g) as Hrem.
  unfold remaining_cards in *. rewrite Hcards, length_app, length_reverse in Hrem.
  lia.
Qed.

Lemma X13_reading_takes_its_cards_witness :
  cards_needed OpCeltic ≤ remaining_cards (deck new_reading) ∧
  remaining_cards (deck (run_reading new_reading OpCeltic demo_rng).1.2) + 10
    = 78.
Proof.
  assert (H : cards_needed OpCeltic ≤ remaining_cards (deck new_reading))
    by (vm_compute; lia).
  split; [exact H|].
  destruct (X13_reading_takes_its_cards new_reading OpCeltic demo_rng H)
    as (r & snapshots & _ & _ & _ & _ & Hrem).
  exact Hrem.
Defined.

(** X14.  A session never refills its deck.  Once the deck is empty every
    reading returns an error and leaves the session exactly as it is; and a
    reading never leaves more cards than it found. *)
Theorem X14_empty_deck_is_final
    (self : TarotReading) (op : reading_op) (g : Random.state) :
  let run := run_reading self op g in
  remaining_cards (deck run.1.2) ≤ remaining_cards (deck self) ∧
  (remaining_cards (deck self) = 0 →
     (∃ message, run.1.1 = Ok (error_result message)) ∧ run.1.2 = self).
Proof.
  intros run. subst run.
  destruct (run_reading_cases self op g)
    as [(Hlt & Herr & Hself)|(Hle & type & cs & interp & _ & _ & _ & Hcards)].
  - split; [rewrite Hself; unfold remaining_cards; simpl; lia|].
    intros H0. split; [exact Herr|]. rewrite Hself.
    destruct self as [[cs] h]. unfold remaining_cards in H0. simpl in *.
    by apply nil_length_inv in H0 as ->.
  - pose proof (shuffle_remaining (deck self) g) as Hrem.
    unfold remaining_cards in *.
    rewrite Hcards, length_app in Hrem. split; [lia|].
    destruct op; simpl in Hle; lia.
Qed.

Lemma X14_empty_deck_is_final_witness :
  remaining_cards (deck none_left) = 0 ∧
  (run_reading none_left OpThree demo_rng).1.2 = none_left.
Proof.
  assert (H : remaining_cards (deck none_left) = 0) by (by vm_compute).
  split; [exact H|].
  exact (proj2 (proj2 (X14_empty_deck_is_final none_left OpThree demo_rng) H)).
Defined.

(** *** What every sequence of readings keeps *)

Lemma dealt_names_reading_result type cs interpretation :
  dealt_names (reading_result type cs interpretation)
    = map (λ c, of_atom (name c)) cs.
Proof.
  unfold dealt_names.
  change (py_lookup "cards" (reading_result type cs interpretation))
    with (Some (PList (map to_dict cs))).
  induction cs as [|c cs IH]; [done|].
  cbn [map]. rewrite <- IH. reflexivity.
Qed.

Lemma session_names_step self op g :
  session_names (run_reading self op g).1.2 ⊆+ session_names self.
Proof.
  unfold session_names.
  destruct (run_reading_cases self op g)
    as [(_ & _ & ->)|(_ & type & cs & interp & _ & _ & Hh & Hcards)].
  - simpl. rewrite app_nil_r. by apply submseteq_inserts_r.
  - rewrite Hh, map_app, concat_app. simpl.
    rewrite app_nil_r, dealt_names_reading_result, <- app_assoc.
    apply submseteq_skips_l.
    pose proof (shuffle_faces (deck self) g) as Hf.
    apply (fmap_Permutation (λ f : pyatom * pyatom * pyatom, of_atom f.1.1))
      in Hf.
    rewrite <- !list_fmap_compose in Hf.
    change (map (λ c, of_atom (name c)) (cards (shuffle (deck self) g).1)
              ≡ₚ map (λ c, of_atom (name c)) (cards (deck self))) in Hf.
    rewrite <- Hf, Hcards, map_app, (fmap_reverse _ cs), reverse_Permutation.
    by rewrite Permutation_app_comm.
Qed.

Global Instance of_atom_inj : Inj (=) (=) of_atom.
Proof. intros [|b1|s1] [|b2|s2] H; by simplify_eq/=. Qed.

(** X15.  In one session no card is dealt twice.  After any sequence of
    readings on a new session, the names on the card snapshots of all the
    readings in the history, together with the names still in the deck, are
    pairwise distinct and at most 78. *)
Theorem X15_no_card_twice (steps : list (reading_op * Random.state)) :
  let self := run_session steps in
  NoDup (session_names self) ∧
  NoDup (concat (map dealt_names (readings_history self))) ∧
  length (concat (map dealt_names (readings_history self)))
    + remaining_cards (deck self) ≤ 78.
Proof.
  intros self.
  assert (Hsub : session_names self ⊆+ session_names new_reading).
  { subst self. unfold run_session.
    induction steps as [|[op g] steps IH] using rev_ind; [done|].
    rewrite foldl_app. simpl. etrans; [apply session_names_step|exact IH]. }
  assert (Hnew : NoDup (session_names new_reading)).
  { change (session_names new_reading)
      with (map of_atom (map name (cards new_deck))).
    apply (NoDup_fmap_2 of_atom).
    apply (bool_decide_unpack _). by vm_compute. }
  assert (Hnd : NoDup (session_names self)) by by eapply submseteq_NoDup.
  split; [exact Hnd|]. split.
  - unfold session_names in Hnd. by apply NoDup_app in Hnd as [? _].
  - apply submseteq_length in Hsub. unfold session_names in Hsub.
    rewrite length_app, length_map in Hsub. exact Hsub.
Qed.

Lemma run_session_history_step self op g :
  Forall (λ r, is_error r = false ∧ unique_keys r = true)
    (readings_history self) →
  Forall (λ r, is_error r = false ∧ unique_keys r = true)
    (readings_history (run_reading self op g).1.2).
Proof.
  intros Hall.
  destruct (run_reading_cases self op g)
    as [(_ & _ & ->)|(_ & type & cs & interp & _ & _ & -> & _)]; [done|].
  apply Forall_app. split; [done|]. constructor; [|done].
  split; [reflexivity|apply unique_keys_reading_result].
Qed.

(** X16.  The history of a session holds successful readings only, and
    each of them can be written out and read back: its JSON text decodes to
    the reading itself. *)
Theorem X16_history_can_be_saved (steps : list (reading_op * Random.state)) :
  Forall (λ r, is_error r = false ∧ Json.loads (Json.dumps r) = Some r)
    (readings_history (run_session steps)).
Proof.
  assert (Hall : Forall (λ r, is_error r = false ∧ unique_keys r = true)
                   (readings_history (run_session steps))).
  { unfold run_session.
    induction steps as [|[op g] steps IH] using rev_ind; [by constructor|].
    rewrite foldl_app. simpl. by apply run_session_history_step. }
  eapply Forall_impl; [exact Hall|]. intros r [Hok Huk].
  split; [exact Hok|]. by apply JsonFacts.loads_dumps.
Qed.

(** X17.  Readings succeed as long as the deck lasts: when the spreads of a
    sequence of readings on a new session need 78 cards or fewer in all,
    every one of them succeeds; the history then holds one reading per call
    and the deck the 78 cards less those dealt. *)
Theorem X17_readings_while_cards_last
    (steps : list (reading_op * Random.state)) :
  let needed := foldr (λ step n, cards_needed step.1 + n) 0 steps in
  needed ≤ 78 →
  length (readings_history (run_session steps)) = length steps ∧
  remaining_cards (deck (run_session steps)) + needed = 78 ∧
  Forall (λ r, is_error r = false) (readings_history (run_session steps)).
Proof.
  cbv zeta. unfold run_session.
  induction steps as [|[op g] steps IH] using rev_ind; intros Hle.
  - split; [done|]. split; [done|]. constructor.
  - rewrite foldr_app in Hle |- *. simpl in Hle |- *.
    rewrite foldl_app. simpl.
    set (m := foldr (λ step n, cards_needed step.1 + n) 0 steps) in *.
    assert (Hsplit : ∀ k,
              foldr (λ (step : reading_op * Random.state) n,
                       cards_needed step.1 + n) k steps = m + k).
    { intros k. subst m. clear. induction steps as [|s steps IH]; simpl; [done|].
      rewrite IH. lia. }
    rewrite Hsplit in Hle |- *.
    destruct IH as (Hlen & Hrem & Hok); [lia|].
    set (self := foldl _ new_reading steps) in *.
    destruct (run_reading_cases self op g)
      as [(Hlt & _)|(_ & type & cs & interp & _ & Hcs & Hh & Hcards)]; [lia|].
    rewrite Hh, length_app, Hlen. simpl. split; [rewrite length_app; simpl; lia|].
    split.
    + pose proof (shuffle_remaining (deck self) g) as Hs.
      unfold remaining_cards in *.
      rewrite Hcards, length_app, length_reverse in Hs. lia.
    + apply Forall_app. split; [done|]. by constructor.
Qed.

Lemma X17_readings_while_cards_last_witness :
  let steps := [(OpCeltic, demo_rng); (OpThree, demo_rng); (OpSingle, demo_rng)] in
  foldr (λ step n, cards_needed step.1 + n) 0 steps ≤ 78 ∧
  length (readings_history (run_session steps)) = 3 ∧
  remaining_cards (deck (run_session steps)) + 14 = 78.
Proof.
  intros steps.
  assert (H : foldr (λ step n, cards_needed step.1 + n) 0 steps ≤ 78)
    by (vm_compute; lia).
  split; [exact H|].
  destruct (X17_readings_while_cards_last steps H) as (Hlen & Hrem & _).
  split; [exact Hlen|exact Hrem].
Defined.

(** ** Persistence *)





(** *** The characters of the text *)

Lemma string_forallb_app f (s1 s2 : string) :
  string_forallb f (s1 +:+ s2) = string_forallb f s1 && string_forallb f s2.
Proof.
  induction s1 as [|c s1 IH]; [done|]. simpl. by rewrite IH, andb_assoc.
Qed.

Lemma plain_escape_char c : string_forallb plain (Json.escape_char c) = true.
Proof. by destruct c as [[] [] [] [] [] [] [] []]. Qed.

Lemma plain_escape s : string_forallb plain (Json.escape s) = true.
Proof.
  induction s as [|c s IH]; [done|].
  simpl Json.escape. by rewrite string_forallb_app, plain_escape_char, IH.
Qed.

Lemma plain_encode_basestring s :
  string_forallb plain (Json.encode_basestring s) = true.
Proof.
  unfold Json.encode_basestring. simpl.
  by rewrite string_forallb_app, plain_escape.
Qed.

Lemma plain_newline_indent level :
  string_forallb plain (Json.newline_indent level) = true.
Proof.
  unfold Json.newline_indent, newline. simpl.
  induction (level + (level + 0)) as [|n IH]; [done|]. exact IH.
Qed.

Lemma plain_join (sep : string) parts :
  string_forallb plain sep = true →
  Forall (λ p, string_forallb plain p = true) parts →
  string_forallb plain (join sep parts) = true.
Proof.
  intros Hsep. induction 1 as [|p parts Hp Hall IH]; [done|].
  destruct parts as [|q parts]; [done|].
  rewrite JsonFacts.join_cons_cons, !string_forallb_app, Hp, Hsep. exact IH.
Qed.

Lemma plain_iterencode v : ∀ level,
  string_forallb plain (Json.iterencode level v) = true.
Proof.
  induction v as [| b | s | items IH | pairs IH] using pyval_ind';
    intros level.
  - done.
  - by destruct b.
  - apply plain_encode_basestring.
  - destruct items as [|v items]; [done|].
    rewrite JsonFacts.iterencode_list, !string_forallb_app.
    rewrite !plain_newline_indent, plain_join; [done| |].
    + by rewrite string_forallb_app, plain_newline_indent.
    + apply Forall_fmap. eapply Forall_impl; [exact IH|].
      intros x Hx. unfold compose. apply Hx.
  - destruct pairs as [|kv pairs]; [done|].
    rewrite JsonFacts.iterencode_dict, !string_forallb_app.
    rewrite !plain_newline_indent, plain_join; [done| |].
    + by rewrite string_forallb_app, plain_newline_indent.
    + apply Forall_fmap. eapply Forall_impl; [exact IH|].
      intros [k x] Hx. unfold compose. cbn beta.
      unfold encode_item. cbn [fst snd] in *.
      by rewrite !string_forallb_app, plain_encode_basestring, Hx.
Qed.



(** X21.  [load_reading] returns [None] for a path that holds no file, for
    a file that is empty or holds white space only, and for a file that
    holds one value followed by another (as after writing two readings to
    one file, one after the other). *)
Theorem X21_load_rejects (fs : FileSystem) (path text : string) (v w : pyval) :
  (files fs !! path = None → load_reading fs path = None) ∧
  (files fs !! path = Some text → Json.skip_ws text = "" →
   load_reading fs path = None) ∧
  (files fs !! path = Some (Json.dumps v +:+ Json.dumps w) →
   unique_keys v = true →
   load_reading fs path = None).
Proof.
  unfold load_reading. split; [|split].
  - by intros ->.
  - intros -> Hws. unfold Json.loads. rewrite Hws.
    by destruct (String.length text).
  - intros -> Huk. unfold Json.loads, Json.dumps.
    rewrite JsonFacts.skip_ws_iterencode.
    rewrite JsonFacts.iterencode_reads_back; [|done|].
    + rewrite <- (string_app_nil_r (Json.iterencode 0 w)).
      rewrite JsonFacts.skip_ws_iterencode.
      by destruct (JsonFacts.iterencode_head 0 w "") as (c & t & -> & _).
    + pose proof (JsonFacts.size_le_length v 0).
      rewrite string_length_app. lia.
Qed.

Lemma X21_load_rejects_witness :
  let twice := Json.dumps PNone +:+ Json.dumps PNone in
  let fs := mkFS (<["two.rdg" := twice]> (<["blank.rdg" := "  "]> ∅))
                 (λ _, true) in
  files fs !! "none.rdg" = None ∧
  files fs !! "blank.rdg" = Some "  " ∧ Json.skip_ws "  " = "" ∧
  files fs !! "two.rdg" = Some twice ∧ unique_keys PNone = true ∧
  load_reading fs "none.rdg" = None ∧
  load_reading fs "blank.rdg" = None ∧
  load_reading fs "two.rdg" = None.
Proof.
  intros twice fs.
  assert (H1 : files fs !! "none.rdg" = None) by done.
  assert (H2 : files fs !! "blank.rdg" = Some "  ") by done.
  assert (H3 : Json.skip_ws "  " = "") by done.
  assert (H4 : files fs !! "two.rdg" = Some twice) by done.
  assert (H5 : unique_keys PNone = true) by done.
  repeat (split; [assumption|]).
  split; [|split].
  - exact (proj1 (X21_load_rejects fs "none.rdg" "" PNone PNone) H1).
  - exact (proj1 (proj2 (X21_load_rejects fs "blank.rdg" "  " PNone PNone))
             H2 H3).
  - exact (proj2 (proj2 (X21_load_rejects fs "two.rdg" "" PNone PNone)) H4 H5).
Defined.



(** *** What a loaded value is *)

Lemma dict_set_keys key value dct :
  NoDup (map fst dct) → NoDup (map fst (Json.dict_set key value dct)).
Proof.
  induction dct as [|[k v] dct IH]; intros Hnd; simpl.
  - apply NoDup_singleton.
  - destruct (String.eqb_spec k key) as [->|Hne]; [done|].
    simpl in *. apply NoDup_cons in Hnd as [Hk Hnd].
    apply NoDup_cons. split; [|by apply IH].
    intros Hin. apply Hk. clear IH Hnd Hk.
    induction dct as [|[k' v'] dct IH]; simpl in *.
    + by apply list_elem_of_singleton in Hin.
    + destruct (String.eqb_spec k' key) as [->|_]; [done|].
      simpl in Hin. apply elem_of_cons in Hin as [->|Hin]; [left|].
      right. by apply IH.
Qed.

Lemma dict_set_values key value dct :
  unique_keys value = true →
  forallb (λ kv, unique_keys kv.2) dct = true →
  forallb (λ kv, unique_keys kv.2) (Json.dict_set key value dct) = true.
Proof.
  intros Hv. induction dct as [|[k v] dct IH]; simpl.
  - by rewrite Hv.
  - intros [Hkv Hrest]%andb_prop.
    destruct (String.eqb k key); simpl.
    + by rewrite Hv.
    + by rewrite Hkv, IH.
Qed.

Lemma dict_of_pairs_unique_keys pairs :
  forallb (λ kv, unique_keys kv.2) pairs = true →
  unique_keys (PDict (Json.dict_of_pairs pairs)) = true.
Proof.
  intros Hall. unfold Json.dict_of_pairs.
  assert (Hgen : ∀ acc,
            NoDup (map fst acc) →
            forallb (λ kv, unique_keys kv.2) acc = true →
            unique_keys
              (PDict (foldl (λ dct kv, Json.dict_set kv.1 kv.2 dct) acc pairs))
              = true).
  { induction pairs as [|[k v] pairs IH]; intros acc Hnd Hacc.
    - simpl. rewrite Hacc, andb_true_r. by apply bool_decide_eq_true.
    - simpl in Hall. apply andb_prop in Hall as [Hv Hall]. simpl.
      apply IH; [done|by apply dict_set_keys|by apply dict_set_values]. }
  apply Hgen; [apply NoDup_nil_2|done].
Qed.

Lemma scans_unique_keys :
  (∀ s v r, Json.scans s v r → unique_keys v = true) ∧
  (∀ s vs r, Json.scans_values s vs r → forallb unique_keys vs = true) ∧
  (∀ s ps r, Json.scans_pairs s ps r →
     forallb (λ kv, unique_keys kv.2) ps = true).
Proof.
  apply Json.scans_mutind; intros; simpl; try done.
  - by apply dict_of_pairs_unique_keys.
  - by rewrite H0.
  - by rewrite H0, H3.
  - by rewrite H2.
  - by rewrite H2, H6.
Qed.

Lemma loads_unique_keys (s : string) v :
  Json.loads s = Some v → unique_keys v = true.
Proof.
  intros (r & H & _)%JsonFacts.loads_scans.
  by apply (proj1 scans_unique_keys) in H.
Qed.


